(** * kuryr_kubernetes.clients: the client registry, its factories and the
    openstacksdk patch layer

    A shallow embedding of [kuryr_kubernetes/clients.py].  Python objects
    live in a heap and are named by their location, so that "the same
    instance" is equality of locations; the module-level dict [_clients] is
    a finite map from string keys to locations.  Every function of the
    module is a computation in a state-and-exception monad whose outcome
    also records the states the program went through, one per mutation. *)

From stdpp Require Import gmap strings list.
From Stdlib Require Import ZArith Ascii.

Local Open Scope Z_scope.

(** ** Values *)

(** JSON documents: request payloads, response bodies and the results of
    the router methods.  A Python dict is an association list read at its
    first matching key. *)
#[warnings="-register-all"]
Inductive json :=
  | JNull
  | JBool (b : bool)
  | JNum (n : Z)
  | JStr (s : string)
  | JArr (items : list json)
  | JObj (fields : list (string * json)).

Fixpoint dict_get (k : string) (d : list (string * json)) : option json :=
  match d with
  | [] => None
  | (k', v) :: d' => if decide (k' = k) then Some v else dict_get k d'
  end.

(** ** Exceptions *)

Inductive exc_class :=
  | KeyError
  | TypeError
  | ValueError
  | AttributeError
  | StopIteration
  | SDKException
  | HttpException
  | BadRequestException
  | ForbiddenException
  | NotFoundException
  | ConflictException
  | PreconditionFailedException
  | ExternalError (name : string).

Global Instance exc_class_eq_dec : EqDecision exc_class.
Proof. solve_decision. Defined.

(** The direct base class, as declared in [builtins] and
    [openstack.exceptions]. *)
Definition base_class (c : exc_class) : option exc_class :=
  match c with
  | HttpException => Some SDKException
  | BadRequestException | ForbiddenException | NotFoundException
  | ConflictException | PreconditionFailedException => Some HttpException
  | _ => None
  end.

(** [issubclass c c'], the hierarchy being two levels deep. *)
Definition issubclass (c c' : exc_class) : bool :=
  bool_decide (c = c')
  || match base_class c with
     | Some b =>
         bool_decide (b = c')
         || match base_class b with
            | Some b' => bool_decide (b' = c')
            | None => false
            end
     | None => false
     end.

(** An exception instance: its class and the constructor arguments given
    at the raise site.  [SDKException.__init__(self, message=None,
    extra_data=None)] binds the first positional argument to [message] and
    the second to [extra_data]. *)
Record exn := Exn {
  exc_type : exc_class;
  exc_message : option json;
  exc_extra_data : option json;
}.

Inductive except (A : Type) :=
  | Ok (a : A)
  | Raise (e : exn).
Arguments Ok {A} a.
Arguments Raise {A} e.

(** ** Objects and the program state *)

(** An object is named by its position in the heap. *)
Abbreviation loc := nat (only parsing).

(** The three functions of the patch layer, as targets of
    [functools.partial]. *)
Inductive patch_fn := F_create_ports | F_add_trunk_subports | F_delete_trunk_subports.

Global Instance patch_fn_eq_dec : EqDecision patch_fn.
Proof. solve_decision. Defined.

(** [partial(f, self)] *)
Inductive attr := Partial (f : patch_fn) (self : loc).

(** A connection holds the proxy of a service once that proxy has been
    built, which the SDK does when the attribute of the service is first
    read.  The network proxy is read by the statement that follows the
    construction of the connection, so a connection is never seen without
    it; the other two are there from their first read on. *)
Inductive obj :=
  | NeutronClient
  | K8sClient (api_root : string)
  | PodResourcesClient (root_dir : string)
  | Connection (region_name : option string) (network : loc)
      (load_balancer compute : option loc)
  | Proxy (attrs : gmap string attr)
  | Trunk (id : option string) (attributes : gmap string json)
  | Port (kwargs : list (string * json))
  | Generator (pending : list json).

Inductive http_method := POST | PUT.

Record http_request := Request {
  req_method : http_method;
  req_url : string;
  req_json : json;
}.

Record Response := {
  status_code : Z;
  ok : bool;
  text : string;
  json_body : except json;
}.

Record state := State {
  _clients : gmap string loc;
  heap : list obj;
  warnings : list string;
  requests : list http_request;
}.

(** The state the module is imported in: [_clients = {}]. *)
Definition initial : state :=
  {| _clients := ∅; heap := []; warnings := []; requests := [] |}.

(** ** What the module reads from outside *)

Record Config := {
  kubernetes_api_root : option string;
  neutron_region_name : option string;
  sriov_kubelet_root_dir : string;
}.

(** Calls into code outside the module that build an object; each may
    raise.  [service_proxy] is the construction of the proxy of a service
    on the first read of the connection's attribute, version discovery
    included; [os_port_Port] is the constructor of a port given keyword
    arguments that bind its own parameters. *)
Inductive ext_call :=
  | utils_get_neutron_client
  | utils_get_auth_plugin
  | utils_get_keystone_session
  | connection_Connection
  | k8s_client_K8sClient (api_root : string)
  | pr_client_PodResourcesClient (root_dir : string)
  | service_proxy (service_type : string)
  | os_port_Port (kwargs : list (string * json)).

Record World := {
  CONF : Config;
  environ : gmap string string;
  ext_fail : ext_call → option exn;
  http : http_request → except Response;
}.

(** ** The monad *)

Record outcome (A : Type) := Outcome {
  result : except A;
  final : state;
  trace : list state;
}.
Arguments Outcome {A} _ _ _.
Arguments result {A} _.
Arguments final {A} _.
Arguments trace {A} _.

Definition M (A : Type) : Type := state → outcome A.

Global Instance M_ret : MRet M := λ A a σ, Outcome (Ok a) σ [].

(** The outcome [o] of a continuation, after the states [t] that were
    gone through before it. *)
Definition prepend {A} (t : list state) (o : outcome A) : outcome A :=
  Outcome (result o) (final o) (t ++ trace o).

Global Instance M_bind : MBind M := λ A B f m σ,
  let o := m σ in
  match result o with
  | Ok a => prepend (trace o) (f a (final o))
  | Raise e => Outcome (Raise e) (final o) (trace o)
  end.

Definition raise {A} (e : exn) : M A := λ σ, Outcome (Raise e) σ [].

Definition gets {A} (f : state → A) : M A := λ σ, Outcome (Ok (f σ)) σ [].

(** A mutation; the state it leaves is one the program can be observed
    in. *)
Definition modify (f : state → state) : M unit :=
  λ σ, Outcome (Ok ()) (f σ) [f σ].

Definition lift {A} (r : except A) : M A :=
  match r with
  | Ok a => mret a
  | Raise e => raise e
  end.

(** [try: m except cls: h] *)
Definition try_except {A} (m : M A) (cls : exc_class) (h : M A) : M A := λ σ,
  let o := m σ in
  match result o with
  | Ok a => o
  | Raise e =>
      if issubclass (exc_type e) cls then prepend (trace o) (h (final o))
      else o
  end.

(** [m], and [h] before the exception goes on if [m] raises *)
Definition on_exception {A} (m : M A) (h : M unit) : M A := λ σ,
  let o := m σ in
  match result o with
  | Ok a => o
  | Raise e => prepend (trace o) ((h ≫= λ _, raise e) (final o))
  end.

Definition key_error (k : string) : exn := Exn KeyError (Some (JStr k)) None.

(** [d[k]] on a dict held as a finite map *)
Definition subscript {A} (d : gmap string A) (k : string) : M A :=
  match d !! k with
  | Some v => mret v
  | None => raise (key_error k)
  end.

(** Object construction: the new object is appended to the heap, so its
    location is one no earlier object has. *)
Definition alloc (o : obj) : M loc := λ σ,
  let l := length (heap σ) in
  let σ' := State (_clients σ) (heap σ ++ [o]) (warnings σ) (requests σ) in
  Outcome (Ok l) σ' [σ'].

Definition load (l : loc) : M obj := λ σ,
  match heap σ !! l with
  | Some o => Outcome (Ok o) σ []
  | None => Outcome (Raise (Exn AttributeError None None)) σ []
  end.

Definition store (l : loc) (o : obj) : M unit :=
  modify (λ σ, State (_clients σ) (<[l := o]> (heap σ)) (warnings σ) (requests σ)).

(** [_clients[k] = l] *)
Definition set_client (k : string) (l : loc) : M unit :=
  modify (λ σ, State (<[k := l]> (_clients σ)) (heap σ) (warnings σ) (requests σ)).

(** [warnings.warn(msg, DeprecationWarning)] *)
Definition warn (msg : string) : M unit :=
  modify (λ σ, State (_clients σ) (heap σ) (warnings σ ++ [msg]) (requests σ)).

(** ** Python strings *)

Module str.

(** [s.split(sep)] for a one-character separator *)
Fixpoint split (sep : ascii) (s : string) : list string :=
  match s with
  | EmptyString => [EmptyString]
  | String c s' =>
      if decide (c = sep) then EmptyString :: split sep s'
      else match split sep s' with
           | p :: ps => String c p :: ps
           | [] => [String c EmptyString]
           end
  end.

(** [c in s] for a character [c] *)
Fixpoint contains_char (c : ascii) (s : string) : bool :=
  match s with
  | EmptyString => false
  | String c' s' => bool_decide (c' = c) || contains_char c s'
  end.

Fixpoint all_chars (p : ascii → bool) (s : string) : bool :=
  match s with
  | EmptyString => true
  | String c s' => p c && all_chars p s'
  end.

Fixpoint prefix (p s : string) : bool :=
  match p, s with
  | EmptyString, _ => true
  | String a p', String b s' => bool_decide (a = b) && prefix p' s'
  | String _ _, EmptyString => false
  end.

(** [sub in s] for strings *)
Fixpoint contains (sub s : string) : bool :=
  prefix sub s
  || match s with
     | EmptyString => false
     | String _ s' => contains sub s'
     end.

Fixpoint lstrip (c : ascii) (s : string) : string :=
  match s with
  | String c' s' => if decide (c' = c) then lstrip c s' else s
  | EmptyString => EmptyString
  end.

(** [s.strip(c)] for a one-character set *)
Definition strip (c : ascii) (s : string) : string :=
  String.rev (lstrip c (String.rev (lstrip c s))).

(** [sep.join(parts)] *)
Fixpoint join (sep : string) (parts : list string) : string :=
  match parts with
  | [] => EmptyString
  | [p] => p
  | p :: ps => p +:+ sep +:+ join sep ps
  end.

(** [fmt % args] where every argument is a [str]: [%s] takes the next
    argument, [%%] is a percent sign. *)
Fixpoint format (fmt : string) (args : list string) : except string :=
  match fmt with
  | EmptyString =>
      match args with
      | [] => Ok EmptyString
      | _ :: _ => Raise (Exn TypeError (Some (JStr "not all arguments converted during string formatting")) None)
      end
  | String "%" (String "s" fmt') =>
      match args with
      | a :: args' =>
          match format fmt' args' with
          | Ok r => Ok (a +:+ r)
          | Raise e => Raise e
          end
      | [] => Raise (Exn TypeError (Some (JStr "not enough arguments for format string")) None)
      end
  | String "%" (String "%" fmt') =>
      match format fmt' args with
      | Ok r => Ok (String "%" r)
      | Raise e => Raise e
      end
  | String "%" _ =>
      Raise (Exn ValueError (Some (JStr "unsupported format character")) None)
  | String c fmt' =>
      match format fmt' args with
      | Ok r => Ok (String c r)
      | Raise e => Raise e
      end
  end.

End str.

(** ** [ipaddress.ip_address] on strings

    The parser of Python's standard library, as CPython 3.8 has it: first
    the dotted quad of [IPv4Address], then the colon-separated hextets of
    [IPv6Address].  An [AddressValueError], which is a [ValueError], is
    [None] in the two parsers. *)

Module ipaddress.

Definition is_decimal_digit (c : ascii) : bool :=
  let n := N_of_ascii c in (48 <=? n)%N && (n <=? 57)%N.

Definition is_hex_digit (c : ascii) : bool :=
  let n := N_of_ascii c in
  ((48 <=? n)%N && (n <=? 57)%N)
  || ((65 <=? n)%N && (n <=? 70)%N)
  || ((97 <=? n)%N && (n <=? 102)%N).

Definition digit_value (c : ascii) : Z :=
  let n := Z.of_N (N_of_ascii c) in
  if (97 <=? n) then n - 87 else if (65 <=? n) then n - 55 else n - 48.

(** [int(s, base)] for a non-empty string of digits of that base *)
Fixpoint int_of (base : Z) (acc : Z) (s : string) : Z :=
  match s with
  | EmptyString => acc
  | String c s' => int_of base (acc * base + digit_value c) s'
  end.

Definition _parse_octet (octet_str : string) : option Z :=
  match octet_str with
  | EmptyString => None
  | String c0 _ =>
      if negb (str.all_chars is_decimal_digit octet_str) then None
      else if (3 <? String.length octet_str)%nat then None
      else if negb (bool_decide (octet_str = "0")) && bool_decide (c0 = "0"%char) then None
      else
        let octet_int := int_of 10 0 octet_str in
        if 255 <? octet_int then None else Some octet_int
  end.

(** [int.from_bytes(octets, 'big')] *)
Fixpoint from_octets (acc : Z) (octets : list string) : option Z :=
  match octets with
  | [] => Some acc
  | o :: os =>
      match _parse_octet o with
      | Some v => from_octets (Z.lor (Z.shiftl acc 8) v) os
      | None => None
      end
  end.

Definition IPv4Address (address : string) : option Z :=
  if str.contains_char "/" address then None
  else match address with
       | EmptyString => None
       | _ =>
           let octets := str.split "." address in
           if negb (bool_decide (length octets = 4%nat)) then None
           else from_octets 0 octets
       end.

Definition _parse_hextet (hextet_str : string) : option Z :=
  if negb (str.all_chars is_hex_digit hextet_str) then None
  else if (4 <? String.length hextet_str)%nat then None
  else match hextet_str with
       | EmptyString => None
       | _ => Some (int_of 16 0 hextet_str)
       end.

Definition hex_digit (n : Z) : ascii :=
  ascii_of_N (Z.to_N (if n <? 10 then 48 + n else 87 + n)).

Fixpoint drop_zeros (ds : list Z) : list Z :=
  match ds with
  | d :: ds' => if decide (d = 0) then drop_zeros ds' else ds
  | [] => []
  end.

(** ['%x' % n] for [0 <= n < 65536] *)
Definition hex16 (n : Z) : string :=
  let ds := [Z.land (Z.shiftr n 12) 15; Z.land (Z.shiftr n 8) 15;
             Z.land (Z.shiftr n 4) 15; Z.land n 15] in
  match drop_zeros ds with
  | [] => "0"
  | ds' => fold_right (λ d s, String (hex_digit d) s) EmptyString ds'
  end.

(** The positions [1 .. len-2] holding an empty part *)
Definition inner_empty (parts : list string) : list nat :=
  filter (λ i, parts !! i = Some EmptyString) (seq 1 (length parts - 2)).

(** The two loops that shift the hextets into the address *)
Fixpoint shift_in (acc : Z) (hextets : list string) : option Z :=
  match hextets with
  | [] => Some acc
  | h :: hs =>
      match _parse_hextet h with
      | Some v => shift_in (Z.lor (Z.shiftl acc 16) v) hs
      | None => None
      end
  end.

Definition _HEXTET_COUNT : nat := 8.

Definition is_empty (s : option string) : bool :=
  match s with Some EmptyString => true | _ => false end.

Definition IPv6Address (address : string) : option Z :=
  if str.contains_char "/" address then None
  else match address with
  | EmptyString => None
  | _ =>
    let parts := str.split ":" address in
    if (length parts <? 3)%nat then None
    else
      (* an IPv4-style suffix becomes two hextets *)
      let parts' :=
        if str.contains_char "." (default EmptyString (last parts)) then
          match IPv4Address (default EmptyString (last parts)) with
          | Some ipv4_int =>
              Some (removelast parts
                    ++ [hex16 (Z.land (Z.shiftr ipv4_int 16) 65535);
                        hex16 (Z.land ipv4_int 65535)])
          | None => None
          end
        else Some parts in
      match parts' with
      | None => None
      | Some parts =>
        if (_HEXTET_COUNT + 1 <? length parts)%nat then None
        else
          let n := length parts in
          match inner_empty parts with
          | _ :: _ :: _ => None
          | [skip_index] =>
              let hi0 := skip_index in
              let lo0 := (n - skip_index - 1)%nat in
              let hi := if is_empty (head parts) then (hi0 - 1)%nat else hi0 in
              let lo := if is_empty (last parts) then (lo0 - 1)%nat else lo0 in
              if is_empty (head parts) && negb (bool_decide (hi = 0%nat)) then None
              else if is_empty (last parts) && negb (bool_decide (lo = 0%nat)) then None
              else if (_HEXTET_COUNT <? hi + lo + 1)%nat then None
              else
                let parts_skipped := (_HEXTET_COUNT - (hi + lo))%nat in
                match shift_in 0 (take hi parts) with
                | Some a =>
                    shift_in (Z.shiftl a (16 * Z.of_nat parts_skipped))
                             (drop (n - lo) parts)
                | None => None
                end
          | [] =>
              if negb (bool_decide (n = _HEXTET_COUNT)) then None
              else if is_empty (head parts) then None
              else if is_empty (last parts) then None
              else shift_in 0 parts
          end
      end
  end.

Inductive ip_object := Address (version : Z) (ip : Z).

Definition version (a : ip_object) : Z := let 'Address v _ := a in v.

Definition ip_address (address : string) : except ip_object :=
  match IPv4Address address with
  | Some ip => Ok (Address 4 ip)
  | None =>
      match IPv6Address address with
      | Some ip => Ok (Address 6 ip)
      | None =>
          Raise (Exn ValueError
                   (Some (JStr "does not appear to be an IPv4 or IPv6 address")) None)
      end
  end.

End ipaddress.

(** ** JSON values under Python's operators *)

Definition type_error (msg : string) : exn := Exn TypeError (Some (JStr msg)) None.

(** [v[k]] for a string key *)
Definition json_subscript (v : json) (k : string) : except json :=
  match v with
  | JObj d =>
      match dict_get k d with
      | Some x => Ok x
      | None => Raise (key_error k)
      end
  | JArr _ => Raise (type_error "list indices must be integers or slices, not str")
  | JStr _ => Raise (type_error "string indices must be integers")
  | _ => Raise (type_error "object is not subscriptable")
  end.

Definition is_str (k : string) (v : json) : bool :=
  match v with
  | JStr s => bool_decide (s = k)
  | _ => false
  end.

(** [k in v] for a string [k]: a key of a dict, an element of a list, a
    substring of a string. *)
Definition json_contains (k : string) (v : json) : except bool :=
  match v with
  | JObj d => Ok (bool_decide (is_Some (dict_get k d)))
  | JArr items => Ok (existsb (is_str k) items)
  | JStr s => Ok (str.contains k s)
  | _ => Raise (type_error "argument is not iterable")
  end.

(** [a + b] where one of the operands is known to be a [str]: only two
    strings can be added. *)
Definition add_str (a b : json) : except json :=
  match a, b with
  | JStr x, JStr y => Ok (JStr (x +:+ y))
  | _, _ => Raise (type_error "unsupported operand type(s) for +")
  end.

Fixpoint chars (s : string) : list json :=
  match s with
  | EmptyString => []
  | String c s' => JStr (String c EmptyString) :: chars s'
  end.

(** [iter(v)]: what a [for] loop over [v] goes through *)
Definition json_iter (v : json) : except (list json) :=
  match v with
  | JArr items => Ok items
  | JObj d => Ok (map (λ kv, JStr kv.1) d)
  | JStr s => Ok (chars s)
  | _ => Raise (type_error "object is not iterable")
  end.

(** ** The module *)

Definition _NEUTRON_CLIENT : string := "neutron-client".
Definition _KUBERNETES_CLIENT : string := "kubernetes-client".
Definition _OPENSTACKSDK : string := "openstacksdk".
Definition _POD_RESOURCES_CLIENT : string := "pod-resources-client".

Definition attribute_error : exn := Exn AttributeError None None.

(** Python's truth value of an optional string option: [None] and [''] are
    false. *)
Definition truthy (v : option string) : bool :=
  match v with
  | Some (String _ _) => true
  | _ => false
  end.

Section clients.

Variable w : World.

(** A constructor call into code outside the module: the exception the
    world has for it, or a new object. *)
Definition construct (c : ext_call) (o : obj) : M loc :=
  match ext_fail w c with
  | Some e => raise e
  | None => alloc o
  end.

(** A call outside the module whose value is only passed on *)
Definition external (c : ext_call) : M unit :=
  match ext_fail w c with
  | Some e => raise e
  | None => mret ()
  end.

(** [_clients[k]] *)
Definition _clients_item (k : string) : M loc :=
  d ← gets _clients; subscript d k.

Definition attr_network (c : loc) : M loc :=
  o ← load c;
  match o with
  | Connection _ n _ _ => mret n
  | _ => raise attribute_error
  end.

(** [c.load_balancer] and [c.compute]: the proxy the connection holds
    for the service; on the first read the proxy is built, which may
    raise, and the connection keeps it. *)
Definition attr_load_balancer (c : loc) : M loc :=
  o ← load c;
  match o with
  | Connection _ _ (Some lb) _ => mret lb
  | Connection r n None cp =>
      lb ← construct (service_proxy "load-balancer") (Proxy ∅);
      store c (Connection r n (Some lb) cp);;
      mret lb
  | _ => raise attribute_error
  end.

Definition attr_compute (c : loc) : M loc :=
  o ← load c;
  match o with
  | Connection _ _ _ (Some cp) => mret cp
  | Connection r n lb None =>
      cp ← construct (service_proxy "compute") (Proxy ∅);
      store c (Connection r n lb (Some cp));;
      mret cp
  | _ => raise attribute_error
  end.

(** [setattr(p, name, a)] on a proxy *)
Definition set_attr (p : loc) (name : string) (a : attr) : M unit :=
  o ← load p;
  match o with
  | Proxy attrs => store p (Proxy (<[name := a]> attrs))
  | _ => raise attribute_error
  end.

(** [@removals.remove]: the wrapper warns that the function is
    deprecated, then calls it.  The warning is recorded under the name
    of the function. *)
Definition removals_remove {A} (name : string) (f : M A) : M A :=
  warn name;; f.

Definition get_network_client : M loc :=
  c ← _clients_item _OPENSTACKSDK; attr_network c.

Definition get_neutron_client : M loc :=
  removals_remove "get_neutron_client" (_clients_item _NEUTRON_CLIENT).

Definition get_openstacksdk : M loc :=
  _clients_item _OPENSTACKSDK.

Definition get_loadbalancer_client : M loc :=
  c ← get_openstacksdk; attr_load_balancer c.

Definition get_kubernetes_client : M loc :=
  _clients_item _KUBERNETES_CLIENT.

Definition get_pod_resources_client : M loc :=
  _clients_item _POD_RESOURCES_CLIENT.

Definition get_compute_client : M loc :=
  c ← _clients_item _OPENSTACKSDK; attr_compute c.

Definition setup_neutron_client : M unit :=
  c ← construct utils_get_neutron_client NeutronClient;
  set_client _NEUTRON_CLIENT c.

(** The [api_root] that [setup_kubernetes_client] passes to
    [K8sClient]. *)
Definition kubernetes_api_root_of : M string :=
  if truthy (kubernetes_api_root (CONF w)) then
    mret (default EmptyString (kubernetes_api_root (CONF w)))
  else
    host ← subscript (environ w) "KUBERNETES_SERVICE_HOST";
    port ← subscript (environ w) "KUBERNETES_SERVICE_PORT_HTTPS";
    host ← try_except
              (addr ← lift (ipaddress.ip_address host);
               if decide (ipaddress.version addr = 6)
               then lift (str.format "[%s]" [host])
               else mret host)
              ValueError
              (mret host);
    lift (str.format "https://%s:%s" [host; port]).

Definition setup_kubernetes_client : M unit :=
  api_root ← kubernetes_api_root_of;
  c ← construct (k8s_client_K8sClient api_root) (K8sClient api_root);
  set_client _KUBERNETES_CLIENT c.

(** [connection.Connection(session=..., region_name=...)], with the
    network proxy that the first [conn.network] of [setup_openstacksdk]
    makes the new connection build: nothing of the module runs in
    between, and a failure of either is the failure of the call.  No
    other proxy is built. *)
Definition new_Connection (region_name : option string) : M loc :=
  match ext_fail w connection_Connection with
  | Some e => raise e
  | None =>
      n ← alloc (Proxy ∅);
      alloc (Connection region_name n None None)
  end.

Definition setup_openstacksdk : M unit :=
  external utils_get_auth_plugin;;
  external utils_get_keystone_session;;
  conn ← new_Connection (neutron_region_name (CONF w));
  self ← attr_network conn;
  n ← attr_network conn;
  set_attr n "create_ports" (Partial F_create_ports self);;
  self ← attr_network conn;
  n ← attr_network conn;
  set_attr n "add_trunk_subports" (Partial F_add_trunk_subports self);;
  self ← attr_network conn;
  n ← attr_network conn;
  set_attr n "delete_trunk_subports" (Partial F_delete_trunk_subports self);;
  set_client _OPENSTACKSDK conn.

Definition setup_pod_resources_client : M unit :=
  let root_dir := sriov_kubelet_root_dir (CONF w) in
  c ← construct (pr_client_PodResourcesClient root_dir) (PodResourcesClient root_dir);
  set_client _POD_RESOURCES_CLIENT c.

Definition setup_clients : M unit :=
  setup_neutron_client;;
  setup_kubernetes_client;;
  setup_openstacksdk.

End clients.

(** ** The patch layer and the error translator *)

(** [os_port.Port.base_path] *)
Definition Port_base_path : string := "/ports".

(** [os_utils.urljoin]: every argument is stripped of its slashes, [None]
    counting as the empty string, and the results are joined by a slash. *)
Definition urljoin (args : list (option string)) : string :=
  str.join "/" (map (λ a, str.strip "/" (default EmptyString a)) args).

(** The trunk argument of the sub-port operations: an identifier or a
    resource. *)
Inductive trunk_ref :=
  | TrunkId (id : string)
  | TrunkObj (l : loc).

(** Modelled from the spec: [openstack.exceptions.raise_from_response], the
    shared "raise on non-success" helper, belongs to the SDK and is not
    part of this module.  It fails with a typed exception, NotFound for a
    404 response and an SDK error otherwise; non-success is, for the SDK,
    a status code from 400 up, and the helper returns on any status code
    below 400.  The other classes are those the SDK declares under
    [HttpException]. *)
Definition raise_from_response (response : Response) : M unit :=
  if status_code response <? 400 then mret ()
  else
    let cls :=
      if decide (status_code response = 400) then BadRequestException
      else if decide (status_code response = 403) then ForbiddenException
      else if decide (status_code response = 404) then NotFoundException
      else if decide (status_code response = 409) then ConflictException
      else if decide (status_code response = 412) then PreconditionFailedException
      else HttpException in
    raise (Exn cls None None).

Section patch_layer.

Variable w : World.

(** [self.post(url, json=body)] and [self.put(url, json=body)]: the
    request is issued, and the world answers it. *)
Definition send (r : http_request) : M Response :=
  modify (λ σ, State (_clients σ) (heap σ) (warnings σ) (requests σ ++ [r]));;
  lift (http w r).

Definition _create_ports (self : loc) (payload : json) : M loc :=
  response ← send (Request POST Port_base_path payload);
  if negb (ok response) then
    raise (Exn SDKException
             (Some (JStr "Error when bulk creating ports: %s"))
             (Some (JStr (text response))))
  else
    (* the iterable of a generator expression is evaluated, and [iter]
       applied to it, when the expression is *)
    body ← lift (json_body response);
    ports ← lift (json_subscript body "ports");
    items ← lift (json_iter ports);
    alloc (Generator items).

(** A double-star argument of a call: it has to be a mapping. *)
Definition keyword_arguments (v : json) : except (list (string * json)) :=
  match v with
  | JObj d => Ok d
  | _ => Raise (type_error "argument after ** must be a mapping")
  end.

(** Whether the keyword arguments [kwargs] have one of the [names] *)
Definition binds (names : list string) (kwargs : list (string * json)) : bool :=
  existsb (λ k, bool_decide (is_Some (dict_get k kwargs))) names.

(** [os_port.Port] called with keyword arguments only.  The constructor
    is [Resource.__init__(self, _synchronized=False, connection=None,
    **attrs)]: a keyword [self] is a second value for the instance, which
    Python refuses before the constructor runs; the keywords
    [_synchronized] and [connection] are taken by the parameters of these
    names and what is made of them is the SDK's; any other keyword is an
    attribute of the port. *)
Definition new_Port (kwargs : list (string * json)) : M loc :=
  if binds ["self"] kwargs then
    raise (type_error "__init__() got multiple values for argument 'self'")
  else if binds ["_synchronized"; "connection"] kwargs then
    match ext_fail w (os_port_Port kwargs) with
    | Some e => raise e
    | None => alloc (Port kwargs)
    end
  else alloc (Port kwargs).

(** [next(g)] on the generator [_create_ports] returns: the iterator
    moves on to the next item and the port of that item is made.  An
    exception in the body finishes the generator. *)
Definition next (g : loc) : M loc :=
  o ← load g;
  match o with
  | Generator [] => raise (Exn StopIteration None None)
  | Generator (item :: rest) =>
      store g (Generator rest);;
      on_exception
        (kwargs ← lift (keyword_arguments item); new_Port kwargs)
        (store g (Generator []))
  | _ => raise (type_error "object is not an iterator")
  end.


(** [self._get_resource(os_trunk.Trunk, trunk)]: a resource is returned
    as it is, an identifier makes a new resource with that identifier;
    no request is issued. *)
Definition _get_resource_Trunk (value : trunk_ref) : M loc :=
  match value with
  | TrunkId id => alloc (Trunk (Some id) ∅)
  | TrunkObj l =>
      o ← load l;
      match o with
      | Trunk _ _ => mret l
      | _ => raise attribute_error
      end
  end.

Definition trunk_id (t : loc) : M (option string) :=
  o ← load t;
  match o with
  | Trunk id _ => mret id
  | _ => raise attribute_error
  end.

(** [trunk._body.attributes.update({k: v})] *)
Definition update_attributes (t : loc) (k : string) (v : json) : M unit :=
  o ← load t;
  match o with
  | Trunk id attributes => store t (Trunk id (<[k := v]> attributes))
  | _ => raise attribute_error
  end.

Definition _add_trunk_subports (self : loc) (trunk : trunk_ref) (subports : json) : M loc :=
  trunk ← _get_resource_Trunk trunk;
  id ← trunk_id trunk;
  let url := urljoin [Some "/trunks"; id; Some "add_subports"] in
  response ← send (Request PUT url (JObj [("sub_ports", subports)]));
  raise_from_response response;;
  update_attributes trunk "sub_ports" subports;;
  mret trunk.

Definition _delete_trunk_subports (self : loc) (trunk : trunk_ref) (subports : json) : M loc :=
  trunk ← _get_resource_Trunk trunk;
  id ← trunk_id trunk;
  let url := urljoin [Some "/trunks"; id; Some "remove_subports"] in
  response ← send (Request PUT url (JObj [("sub_ports", subports)]));
  raise_from_response response;;
  update_attributes trunk "sub_ports" subports;;
  mret trunk.

End patch_layer.

Definition not_found_types : list string :=
  ["RouterNotFound"; "RouterInterfaceNotFoundForSubnet"; "SubnetNotFound"].

(** [x in ('RouterNotFound', ...)] *)
Definition in_strings (x : json) (l : list string) : bool :=
  existsb (λ s, is_str s x) l.

Definition handle_neutron_errors {A} (method : A → M json) (args : A) : M json :=
  result ← method args;
  has_error ← lift (json_contains "NeutronError" result);
  if has_error : bool then
    error ← lift (json_subscript result "NeutronError");
    ty ← lift (json_subscript error "type");
    if in_strings ty not_found_types then
      message ← lift (json_subscript error "message");
      raise (Exn NotFoundException (Some message) None)
    else
      ty ← lift (json_subscript error "type");
      prefix ← lift (add_str ty (JStr ": "));
      message ← lift (json_subscript error "message");
      text ← lift (add_str prefix message);
      raise (Exn SDKException (Some text) None)
  else mret result.

(** ** Notions of the specification *)

(** The state [σ] with another heap, with another registry, and after one
    more request *)
Definition with_heap (σ : state) (h : list obj) : state :=
  State (_clients σ) h (warnings σ) (requests σ).

Definition with_clients (σ : state) (c : gmap string loc) : state :=
  State c (heap σ) (warnings σ) (requests σ).

Definition with_request (σ : state) (r : http_request) : state :=
  State (_clients σ) (heap σ) (warnings σ) (requests σ ++ [r]).

(** Whether [host] is the text of an IPv6 address *)
Definition parses_as_ipv6 (host : string) : bool :=
  match ipaddress.IPv6Address host with
  | Some _ => true
  | None => false
  end.

Definition HOST : string := "KUBERNETES_SERVICE_HOST".
Definition PORT : string := "KUBERNETES_SERVICE_PORT_HTTPS".

(** The rule of the specification: the configured root if there is one,
    else the URL made of the two environment variables. *)
Definition api_root_rule (w : World) : except string :=
  if truthy (kubernetes_api_root (CONF w)) then
    Ok (default EmptyString (kubernetes_api_root (CONF w)))
  else
    match environ w !! HOST, environ w !! PORT with
    | Some host, Some port =>
        Ok ("https://" +:+ (if parses_as_ipv6 host then "[" +:+ host +:+ "]" else host)
            +:+ ":" +:+ port)
    | None, _ => Raise (key_error HOST)
    | Some _, None => Raise (key_error PORT)
    end.

(** The two errors of the specification that the module raises as a
    [KeyError]: an accessor whose registry key was never written, and an
    environment variable that is not there. *)
Definition NotInitialized (k : string) (e : exn) : Prop := e = key_error k.

Definition MissingConfiguration (e : exn) : Prop :=
  e = key_error HOST ∨ e = key_error PORT.

(** ** The registry as the rest of the program uses it *)

(** The four keys of [_clients] *)
Inductive kind := neutron | kubernetes | openstacksdk | pod_resources.

Global Instance kind_eq_dec : EqDecision kind.
Proof. solve_decision. Defined.

Definition key (k : kind) : string :=
  match k with
  | neutron => _NEUTRON_CLIENT
  | kubernetes => _KUBERNETES_CLIENT
  | openstacksdk => _OPENSTACKSDK
  | pod_resources => _POD_RESOURCES_CLIENT
  end.

(** The accessor that returns the entry of a key *)
Definition getter (k : kind) : M loc :=
  match k with
  | neutron => get_neutron_client
  | kubernetes => get_kubernetes_client
  | openstacksdk => get_openstacksdk
  | pod_resources => get_pod_resources_client
  end.

(** The factory that writes the entry of a key *)
Definition setter (w : World) (k : kind) : M unit :=
  match k with
  | neutron => setup_neutron_client w
  | kubernetes => setup_kubernetes_client w
  | openstacksdk => setup_openstacksdk w
  | pod_resources => setup_pod_resources_client w
  end.

(** A call into the module or into an operation it attached *)
Inductive call :=
  | setup (k : kind)
  | setup_all
  | get (k : kind)
  | get_network
  | get_loadbalancer
  | get_compute
  | create_ports (self : loc) (payload : json)
  | next_port (g : loc)
  | add_trunk_subports (self : loc) (trunk : trunk_ref) (subports : json)
  | delete_trunk_subports (self : loc) (trunk : trunk_ref) (subports : json).

(** The state a computation ends in and the states it goes through,
    whether it returns or raises *)
Definition effect {A} (m : M A) (σ : state) : state * list state :=
  (final (m σ), trace (m σ)).

Definition step (w : World) (c : call) : state → state * list state :=
  match c with
  | setup k => effect (setter w k)
  | setup_all => effect (setup_clients w)
  | get k => effect (getter k)
  | get_network => effect get_network_client
  | get_loadbalancer => effect (get_loadbalancer_client w)
  | get_compute => effect (get_compute_client w)
  | create_ports self payload => effect (_create_ports w self payload)
  | next_port g => effect (next w g)
  | add_trunk_subports self trunk subports => effect (_add_trunk_subports w self trunk subports)
  | delete_trunk_subports self trunk subports =>
      effect (_delete_trunk_subports w self trunk subports)
  end.

(** A program: calls one after the other, each in the world of its
    time.  [run] is the state it ends in, [states] all the states it can
    be observed in. *)
Fixpoint run (cs : list (World * call)) (σ : state) : state :=
  match cs with
  | [] => σ
  | (w, c) :: cs' => run cs' (step w c σ).1
  end.

Fixpoint states (cs : list (World * call)) (σ : state) : list state :=
  match cs with
  | [] => [σ]
  | (w, c) :: cs' => σ :: (step w c σ).2 ++ states cs' (step w c σ).1
  end.

(** The network client [nc] has the three operations of the patch layer,
    each bound to [nc] itself. *)
Definition carries_patch_layer (σ : state) (nc : loc) : Prop :=
  ∃ attrs,
    heap σ !! nc = Some (Proxy attrs)
    ∧ attrs !! "create_ports" = Some (Partial F_create_ports nc)
    ∧ attrs !! "add_trunk_subports" = Some (Partial F_add_trunk_subports nc)
    ∧ attrs !! "delete_trunk_subports" = Some (Partial F_delete_trunk_subports nc).

(** Every registry entry whose key is not in [K] is, in [σ'], what it was
    in [σ]. *)
Definition same_entries_outside (K : list string) : relation state :=
  λ σ σ', ∀ k, k ∉ K → _clients σ' !! k = _clients σ !! k.

(** Every object of [σ] is still there, unchanged, in [σ']. *)
Definition objects_kept : relation state :=
  λ σ σ', ∀ l o, heap σ !! l = Some o → heap σ' !! l = Some o.

Definition is_sdk_object (o : obj) : bool :=
  match o with
  | Connection _ _ _ _ | Proxy _ => true
  | _ => false
  end.

(** [o'] is [o], or the connection [o] after more of its proxies were
    built: the region, the network proxy and the proxies it had are the
    same. *)
Definition same_or_grown (o o' : obj) : Prop :=
  match o with
  | Connection r n lb cp =>
      ∃ lb' cp',
        o' = Connection r n lb' cp'
        ∧ (∀ l, lb = Some l → lb' = Some l)
        ∧ (∀ l, cp = Some l → cp' = Some l)
  | _ => o' = o
  end.

(** The connections and the proxies of [σ] are still there in [σ'], a
    proxy unchanged, a connection the same or grown. *)
Definition sdk_objects_kept : relation state :=
  λ σ σ', ∀ l o, heap σ !! l = Some o → is_sdk_object o = true →
    ∃ o', heap σ' !! l = Some o' ∧ same_or_grown o o'.

(** The attributes of the network proxy at location [n] after the first
    [i] assignments of [setup_openstacksdk] *)
Definition patched (n : loc) (i : nat) : gmap string attr :=
  match i with
  | 0%nat => ∅
  | 1%nat => <["create_ports" := Partial F_create_ports n]> ∅
  | 2%nat =>
      <["add_trunk_subports" := Partial F_add_trunk_subports n]>
        (<["create_ports" := Partial F_create_ports n]> ∅)
  | _ =>
      <["delete_trunk_subports" := Partial F_delete_trunk_subports n]>
        (<["add_trunk_subports" := Partial F_add_trunk_subports n]>
           (<["create_ports" := Partial F_create_ports n]> ∅))
  end.

(** The heap [h] followed by a connection, made in region [r], whose
    network proxy has the attributes [a] *)
Definition sdk_heap (h : list obj) (r : option string) (a : gmap string attr) : list obj :=
  h ++ [Proxy a; Connection r (length h) None None].

(** The location of that connection *)
Definition sdk_conn (h : list obj) : loc := (length h + 1)%nat.

(** The states [setup_openstacksdk] goes through when nothing outside
    fails: the two objects are made, the three operations are attached,
    and then the connection is written into the registry. *)
Definition setup_openstacksdk_trace (r : option string) (σ : state) : list state :=
  let h := heap σ in
  let n := length h in
  [ with_heap σ (h ++ [Proxy ∅]);
    with_heap σ (sdk_heap h r (patched n 0));
    with_heap σ (sdk_heap h r (patched n 1));
    with_heap σ (sdk_heap h r (patched n 2));
    with_heap σ (sdk_heap h r (patched n 3));
    with_clients (with_heap σ (sdk_heap h r (patched n 3)))
      (<[_OPENSTACKSDK := sdk_conn h]> (_clients σ)) ].

(** The state [setup_openstacksdk] ends in when nothing outside fails *)
Definition setup_openstacksdk_final (r : option string) (σ : state) : state :=
  with_clients (with_heap σ (sdk_heap (heap σ) r (patched (length (heap σ)) 3)))
    (<[_OPENSTACKSDK := sdk_conn (heap σ)]> (_clients σ)).

(** The first of the calls outside the module that fails in
    [setup_openstacksdk], if one does *)
Definition sdk_failure (w : World) : option exn :=
  match ext_fail w utils_get_auth_plugin with
  | Some e => Some e
  | None =>
      match ext_fail w utils_get_keystone_session with
      | Some e => Some e
      | None => ext_fail w connection_Connection
      end
  end.

(** The exception the factory of a key ends with in the world [w]: the
    first failure among what it reads and calls outside the module, if
    there is one *)
Definition setup_failure (w : World) (k : kind) : option exn :=
  match k with
  | neutron => ext_fail w utils_get_neutron_client
  | kubernetes =>
      match api_root_rule w with
      | Raise e => Some e
      | Ok root => ext_fail w (k8s_client_K8sClient root)
      end
  | openstacksdk => sdk_failure w
  | pod_resources =>
      ext_fail w (pr_client_PodResourcesClient (sriov_kubelet_root_dir (CONF w)))
  end.

(** The registry keys a call may write *)
Definition writes (c : call) : list string :=
  match c with
  | setup k => [key k]
  | setup_all => [_NEUTRON_CLIENT; _KUBERNETES_CLIENT; _OPENSTACKSDK]
  | _ => []
  end.

(** Whatever connection the registry holds has a network client that
    carries the patch layer. *)
Definition published_patched (σ : state) : Prop :=
  ∀ c, _clients σ !! _OPENSTACKSDK = Some c →
    ∃ r n lb cp,
      heap σ !! c = Some (Connection r n lb cp) ∧ carries_patch_layer σ n.

(** [σ'] differs from [σ] at most by the warnings emitted. *)
Definition reads_only : relation state :=
  λ σ σ', _clients σ' = _clients σ ∧ heap σ' = heap σ ∧ requests σ' = requests σ.

(** The class of the client a factory builds *)
Definition instance_of (k : kind) (o : obj) : bool :=
  match k, o with
  | neutron, NeutronClient => true
  | kubernetes, K8sClient _ => true
  | openstacksdk, Connection _ _ _ _ => true
  | pod_resources, PodResourcesClient _ => true
  | _, _ => false
  end.

(** The outcome of reading the entry of key [k] *)
Definition entry (σ : state) (k : string) : except loc :=
  match _clients σ !! k with
  | Some l => Ok l
  | None => Raise (key_error k)
  end.

(** ** The patch layer as the claims speak of it *)

(** What [os_port.Port] called with the double-star argument [item] comes
    to: the keyword arguments of the port it makes, or the exception *)
Definition port_call (w : World) (item : json) : except (list (string * json)) :=
  match keyword_arguments item with
  | Raise e => Raise e
  | Ok kwargs =>
      if binds ["self"] kwargs then
        Raise (type_error "__init__() got multiple values for argument 'self'")
      else if binds ["_synchronized"; "connection"] kwargs then
        match ext_fail w (os_port_Port kwargs) with
        | Some e => Raise e
        | None => Ok kwargs
        end
      else Ok kwargs
  end.

(** The first [k] items of a generator: [next] called [k] times *)
Fixpoint nexts (w : World) (k : nat) (g : loc) : M (list loc) :=
  match k with
  | O => mret []
  | S k' => p ← next w g; ps ← nexts w k' g; mret (p :: ps)
  end.

(** The keyword arguments that are attributes of the port only: none of
    them is a parameter of the constructor. *)
Definition plain (kwargs : list (string * json)) : bool :=
  negb (binds ["self"; "_synchronized"; "connection"] kwargs).

(** Whether [sub] occurs in the message of an exception *)
Definition message_contains (sub : string) (e : exn) : bool :=
  match exc_message e with
  | Some (JStr m) => str.contains sub m
  | _ => false
  end.

(** The sub-port operation and its action segment, by name *)
Definition subports_op (add : bool) :
    World → loc → trunk_ref → json → M loc :=
  if add then _add_trunk_subports else _delete_trunk_subports.

Definition subports_action (add : bool) : string :=
  if add then "add_subports" else "remove_subports".

(** The request a sub-port operation sends for the trunk [id] *)
Definition subports_request (add : bool) (id : option string) (subports : json) :
    http_request :=
  Request PUT (urljoin [Some "/trunks"; id; Some (subports_action add)])
    (JObj [("sub_ports", subports)]).

(** What [_get_resource] makes of the trunk argument in the state [σ]:
    the location of the trunk, its identifier and cached attributes, and
    the state once it is there. *)
Definition resolved (σ : state) (trunk : trunk_ref) :
    option (loc * option string * gmap string json * state) :=
  match trunk with
  | TrunkId id =>
      Some (length (heap σ), Some id, ∅, with_heap σ (heap σ ++ [Trunk (Some id) ∅]))
  | TrunkObj l =>
      match heap σ !! l with
      | Some (Trunk id attributes) => Some (l, id, attributes, σ)
      | _ => None
      end
  end.

(** ** Relations and invariants along a computation

    [keeps R m]: from any state, the state [m] ends in and every state it
    goes through are related by [R] to the state it started in. *)
Definition keeps (R : relation state) {A} (m : M A) : Prop :=
  ∀ σ, R σ (final (m σ)) ∧ Forall (R σ) (trace (m σ)).

(** [preserves I m]: started in a state where [I] holds, [m] ends in one
    and goes through such states only. *)
Definition preserves (I : state → Prop) {A} (m : M A) : Prop :=
  ∀ σ, I σ → I (final (m σ)) ∧ Forall I (trace (m σ)).

(** ** Worlds and results of the examples *)

(** A pod whose service address is the IPv6 loopback *)
Definition pod_world : World := {|
  CONF := {| kubernetes_api_root := None;
             neutron_region_name := None;
             sriov_kubelet_root_dir := "/var/lib/kubelet" |};
  environ := {[ "KUBERNETES_SERVICE_HOST" := "::1";
                "KUBERNETES_SERVICE_PORT_HTTPS" := "443" ]};
  ext_fail := λ _, None;
  http := λ _, Raise (Exn (ExternalError "ConnectionError") None None);
|}.

(** The same pod without the port variable *)
Definition portless_world : World := {|
  CONF := CONF pod_world;
  environ := {[ "KUBERNETES_SERVICE_HOST" := "::1" ]};
  ext_fail := λ _, None;
  http := http pod_world;
|}.

(** The state reached from the import of the module by [setup_clients]
    in [pod_world] *)
Definition after_setup_clients : state := final (setup_clients pod_world initial).

(** A backend that answers every request with a failure whose body is
    [boom] *)
Definition failed_response : Response := {|
  status_code := 500;
  ok := false;
  text := "boom";
  json_body := Raise (Exn ValueError None None);
|}.

Definition failing_world : World := {|
  CONF := CONF pod_world;
  environ := environ pod_world;
  ext_fail := λ _, None;
  http := λ _, Ok failed_response;
|}.

(** A router method that returns [r] *)
Definition returns (r : json) : unit → M json := λ _, mret r.

Definition envelope (ty message : string) : json :=
  JObj [("NeutronError", JObj [("type", JStr ty); ("message", JStr message)])].

(** A backend that answers every request with the status [code] *)
Definition status_world (code : Z) : World := {|
  CONF := CONF pod_world;
  environ := environ pod_world;
  ext_fail := λ _, None;
  http := λ _, Ok {| status_code := code; ok := code <? 400; text := "";
                     json_body := Ok (JObj []) |};
|}.


(** ** Further notions *)

(** [s.count(c)] for a character [c] *)
Fixpoint count_char (c : ascii) (s : string) : nat :=
  match s with
  | EmptyString => 0%nat
  | String c' s' => (if decide (c' = c) then 1 else 0)%nat + count_char c s'
  end.

(** The attributes [setup_openstacksdk] gives the network proxy at [n] *)
Definition patch_layer_of (n : loc) : list (string * attr) :=
  [("create_ports", Partial F_create_ports n);
   ("add_trunk_subports", Partial F_add_trunk_subports n);
   ("delete_trunk_subports", Partial F_delete_trunk_subports n)].

(** An item the constructor of a port cannot be called with: it is not a
    dict, or it is a dict with the key [self]. *)
Definition refused (v : json) : bool :=
  match v with
  | JObj d => binds ["self"] d
  | _ => true
  end.

(** A pod whose service address is a dotted quad *)
Definition ipv4_pod_world : World := {|
  CONF := CONF pod_world;
  environ := {[ "KUBERNETES_SERVICE_HOST" := "10.96.0.1";
                "KUBERNETES_SERVICE_PORT_HTTPS" := "443" ]};
  ext_fail := λ _, None;
  http := http pod_world;
|}.

(** A cloud in which no service proxy can be built *)
Definition no_discovery_world : World := {|
  CONF := CONF pod_world;
  environ := environ pod_world;
  ext_fail := λ c,
    match c with
    | service_proxy _ => Some (Exn (ExternalError "DiscoveryFailure") None None)
    | _ => None
    end;
  http := http pod_world;
|}.

(** A backend whose answer to every request has the JSON body [body] *)
Definition body_world (body : json) : World := {|
  CONF := CONF pod_world;
  environ := environ pod_world;
  ext_fail := λ _, None;
  http := λ _, Ok {| status_code := 200; ok := true; text := ""; json_body := Ok body |};
|}.

(** The objects no call overwrites once they are made: all but trunks
    and generators.  (The proxies are given their attributes by the call
    that makes them; a connection is the same or grown.) *)
Definition is_fixed_object (o : obj) : bool :=
  match o with
  | Trunk _ _ | Generator _ => false
  | _ => true
  end.

(** Every object of [σ] is still there in [σ'], a connection the same
    or grown, any other object unchanged. *)
Definition objects_grown : relation state :=
  λ σ σ', ∀ l o, heap σ !! l = Some o →
    ∃ o', heap σ' !! l = Some o' ∧ same_or_grown o o'.

Definition fixed_objects_kept : relation state :=
  λ σ σ', ∀ l o, heap σ !! l = Some o → is_fixed_object o = true →
    ∃ o', heap σ' !! l = Some o' ∧ same_or_grown o o'.

Definition registry_keys : list string :=
  [_NEUTRON_CLIENT; _KUBERNETES_CLIENT; _OPENSTACKSDK; _POD_RESOURCES_CLIENT].

(** The registry has no key but the four, and each entry is the location
    of an object of the class of its key. *)
Definition registry_is_live (σ : state) : Prop :=
  (∀ k, k ∉ registry_keys → _clients σ !! k = None)
  ∧ ∀ kd l, _clients σ !! key kd = Some l →
      ∃ o, heap σ !! l = Some o ∧ instance_of kd o = true.

(** * Properties *)

(** ** Running computations *)

Ltac unfold_M :=
  unfold mbind, mret, M_bind, M_ret, raise, gets, modify, lift, subscript in *.

Lemma prepend_nil {A} (o : outcome A) : prepend [] o = o.
Proof. by destruct o. Qed.

Lemma prepend_prepend {A} t t' (o : outcome A) :
  prepend t (prepend t' o) = prepend (t ++ t') o.
Proof. unfold prepend. cbn. by rewrite app_assoc. Qed.

Lemma run_bind_ok {A B} (m : M A) (f : A → M B) σ a σ1 t1 :
  m σ = Outcome (Ok a) σ1 t1 → (m ≫= f) σ = prepend t1 (f a σ1).
Proof. intros H. unfold mbind, M_bind. by rewrite H. Qed.

Lemma run_bind_raise {A B} (m : M A) (f : A → M B) σ e σ1 t1 :
  m σ = Outcome (Raise e) σ1 t1 → (m ≫= f) σ = Outcome (Raise e) σ1 t1.
Proof. intros H. unfold mbind, M_bind. by rewrite H. Qed.

Lemma bind_mret {A B} (a : A) (f : A → M B) σ : (mret a ≫= f) σ = f a σ.
Proof. erewrite run_bind_ok by reflexivity. apply prepend_nil. Qed.

Lemma bind_raise {A B} e (f : A → M B) σ : (raise e ≫= f) σ = Outcome (Raise e) σ [].
Proof. by erewrite run_bind_raise. Qed.

Lemma bind_gets {A B} (g : state → A) (f : A → M B) σ : (gets g ≫= f) σ = f (g σ) σ.
Proof. erewrite run_bind_ok by reflexivity. apply prepend_nil. Qed.

Lemma bind_modify {B} (g : state → state) (f : unit → M B) σ :
  (modify g ≫= f) σ = prepend [g σ] (f () (g σ)).
Proof. by erewrite run_bind_ok. Qed.

Lemma bind_alloc {B} (o : obj) (f : loc → M B) σ :
  (alloc o ≫= f) σ
  = prepend [State (_clients σ) (heap σ ++ [o]) (warnings σ) (requests σ)]
      (f (length (heap σ)) (State (_clients σ) (heap σ ++ [o]) (warnings σ) (requests σ))).
Proof. by erewrite run_bind_ok. Qed.

Lemma bind_load {B} (l : loc) (f : obj → M B) σ :
  (load l ≫= f) σ
  = match heap σ !! l with
    | Some o => f o σ
    | None => Outcome (Raise attribute_error) σ []
    end.
Proof.
  destruct (heap σ !! l) as [o|] eqn:E.
  - erewrite run_bind_ok by (unfold load; rewrite E; reflexivity). apply prepend_nil.
  - erewrite run_bind_raise by (unfold load; rewrite E; reflexivity). reflexivity.
Qed.

Lemma bind_assoc {A B C} (m : M A) (f : A → M B) (g : B → M C) σ :
  ((m ≫= f) ≫= g) σ = (m ≫= λ a, f a ≫= g) σ.
Proof.
  unfold mbind, M_bind. destruct (m σ) as [[a|e] σ1 t1]; cbn; [|done].
  destruct (f a σ1) as [[b|e] σ2 t2]; cbn; [|done].
  by rewrite prepend_prepend.
Qed.

(** ** Strings and addresses *)

Example split_colons : str.split ":" "::1" = [""; ""; "1"].
Proof. reflexivity. Qed.

Example split_empty : str.split ":" "" = [""].
Proof. reflexivity. Qed.

Example strip_slashes : str.strip "/" "/trunks" = "trunks".
Proof. reflexivity. Qed.

Example format_pair : str.format "https://%s:%s" ["h"; "p"] = Ok "https://h:p".
Proof. reflexivity. Qed.

Example ip_loopback6 : ipaddress.ip_address "::1" = Ok (ipaddress.Address 6 1).
Proof. reflexivity. Qed.

Example ip_dotted : ipaddress.ip_address "10.0.0.1" = Ok (ipaddress.Address 4 167772161).
Proof. reflexivity. Qed.

Example ip_full6 :
  ipaddress.ip_address "fd00:0:0:0:0:0:0:1"
  = Ok (ipaddress.Address 6 0xfd000000000000000000000000000001).
Proof. reflexivity. Qed.

Example ip_mapped :
  ipaddress.ip_address "::ffff:10.0.0.1" = Ok (ipaddress.Address 6 0xffff0a000001).
Proof. reflexivity. Qed.

Example ip_hostname : ∃ e, ipaddress.ip_address "my-host" = Raise e ∧ exc_type e = ValueError.
Proof. eexists. split; reflexivity. Qed.

Example ip_two_gaps : ∃ e, ipaddress.ip_address "1::2::3" = Raise e.
Proof. eexists. reflexivity. Qed.

Example ip_lone_colon : ∃ e, ipaddress.ip_address ":1:2:3:4:5:6:7" = Raise e.
Proof. eexists. reflexivity. Qed.

Lemma string_app_nil_r (s : string) : s +:+ "" = s.
Proof.
  induction s as [|c s IH]; [done|].
  change (String c s +:+ "") with (String c (s +:+ "")). by rewrite IH.
Qed.

Lemma string_app_assoc (a b c : string) : (a +:+ b) +:+ c = a +:+ b +:+ c.
Proof.
  induction a as [|x a IH]; [done|].
  change (String x ((a +:+ b) +:+ c) = String x (a +:+ b +:+ c)). by rewrite IH.
Qed.

Lemma format_root (h p : string) :
  str.format "https://%s:%s" [h; p] = Ok ("https://" +:+ h +:+ ":" +:+ p).
Proof.
  change (str.format "https://%s:%s" [h; p]) with (Ok ("https://" +:+ h +:+ ":" +:+ p +:+ "")).
  by rewrite string_app_nil_r.
Qed.

Lemma split_nonempty sep s : str.split sep s ≠ [].
Proof. destruct s as [|c s]; cbn; [done|]. case_decide; [done|]. by destruct (str.split sep s). Qed.

Lemma digits_no_colon s :
  Forall (λ p, str.all_chars ipaddress.is_decimal_digit p = true) (str.split "." s) →
  str.contains_char ":" s = false.
Proof.
  induction s as [|c s IH]; [done|]. cbn. case_decide as Hc.
  - subst c. intros H. inversion H; subst. cbn. auto.
  - destruct (str.split "." s) as [|p ps] eqn:E.
    + by destruct (split_nonempty "." s).
    + intros H. inversion H as [|?? Hp Hps]; subst. cbn in Hp.
      apply andb_true_iff in Hp as [Hd Hp].
      rewrite IH; [|by constructor].
      rewrite orb_false_r. apply bool_decide_eq_false. intros ->. done.
Qed.

Lemma parse_octet_digits o v :
  ipaddress._parse_octet o = Some v → str.all_chars ipaddress.is_decimal_digit o = true.
Proof.
  unfold ipaddress._parse_octet. destruct o as [|c o]; [done|].
  destruct (str.all_chars ipaddress.is_decimal_digit (String c o)); [done|]. cbn. done.
Qed.

Lemma from_octets_digits l acc v :
  ipaddress.from_octets acc l = Some v →
  Forall (λ p, str.all_chars ipaddress.is_decimal_digit p = true) l.
Proof.
  revert acc. induction l as [|o l IH]; intros acc; [constructor|]. cbn.
  destruct (ipaddress._parse_octet o) eqn:E; [|done].
  intros H. constructor; eauto using parse_octet_digits.
Qed.

Lemma split_absent sep s : str.contains_char sep s = false → str.split sep s = [s].
Proof.
  induction s as [|c s IH]; [done|]. cbn. intros H.
  apply orb_false_iff in H as [Hc Hs]. apply bool_decide_eq_false in Hc.
  rewrite decide_False by done. by rewrite IH.
Qed.

(** A dotted quad has no colon, so nothing parses both ways. *)
Lemma ipv4_not_ipv6 s v : ipaddress.IPv4Address s = Some v → ipaddress.IPv6Address s = None.
Proof.
  unfold ipaddress.IPv4Address, ipaddress.IPv6Address.
  destruct (str.contains_char "/" s); [done|].
  destruct s as [|c s]; [done|].
  destruct (negb _); [done|]. intros H%from_octets_digits%digits_no_colon.
  by rewrite (split_absent _ _ H).
Qed.

Lemma bracket_step host σ :
  try_except
    (addr ← lift (ipaddress.ip_address host);
     if decide (ipaddress.version addr = 6)
     then lift (str.format "[%s]" [host])
     else mret host)
    ValueError (mret host) σ
  = Outcome (Ok (if parses_as_ipv6 host then "[" +:+ host +:+ "]" else host)) σ [].
Proof.
  unfold try_except, parses_as_ipv6, ipaddress.ip_address. unfold_M.
  destruct (ipaddress.IPv4Address host) as [v4|] eqn:E4.
  - rewrite (ipv4_not_ipv6 _ _ E4). reflexivity.
  - destruct (ipaddress.IPv6Address host) as [v6|]; reflexivity.
Qed.

Lemma kubernetes_api_root_of_rule w σ :
  kubernetes_api_root_of w σ = Outcome (api_root_rule w) σ [].
Proof.
  unfold kubernetes_api_root_of, api_root_rule, HOST, PORT.
  destruct (truthy _); [reflexivity|].
  unfold subscript.
  destruct (environ w !! "KUBERNETES_SERVICE_HOST") as [host|]; [|reflexivity].
  rewrite bind_mret.
  destruct (environ w !! "KUBERNETES_SERVICE_PORT_HTTPS") as [port|]; [|reflexivity].
  rewrite bind_mret.
  erewrite run_bind_ok by apply bracket_step.
  rewrite prepend_nil, format_root. reflexivity.
Qed.

(** C2: [setup_kubernetes_client] takes a configured, non-empty
    [kubernetes.api_root] as it is, whatever the environment holds;
    otherwise the root is ["https://"], the service host, [":"] and the
    HTTPS service port, the host being put in square brackets exactly when
    it is the text of an IPv6 address: ["::1"] and ["443"] give
    ["https://[::1]:443"], ["my-host"] and ["8443"] give
    ["https://my-host:8443"].  The client built on that root is the one
    written into the registry. *)
Theorem setup_kubernetes_client_api_root (w : World) (σ : state) :
  (∀ root, kubernetes_api_root (CONF w) = Some root → root ≠ "" →
     kubernetes_api_root_of w σ = Outcome (Ok root) σ [])
  ∧ (∀ host port,
       truthy (kubernetes_api_root (CONF w)) = false →
       environ w !! "KUBERNETES_SERVICE_HOST" = Some host →
       environ w !! "KUBERNETES_SERVICE_PORT_HTTPS" = Some port →
       kubernetes_api_root_of w σ
       = Outcome (Ok ("https://"
                      +:+ (if parses_as_ipv6 host then "[" +:+ host +:+ "]" else host)
                      +:+ ":" +:+ port)) σ []
       ∧ (host = "::1" → port = "443" →
          result (kubernetes_api_root_of w σ) = Ok "https://[::1]:443")
       ∧ (host = "my-host" → port = "8443" →
          result (kubernetes_api_root_of w σ) = Ok "https://my-host:8443"))
  ∧ (∀ root,
       result (kubernetes_api_root_of w σ) = Ok root →
       ext_fail w (k8s_client_K8sClient root) = None →
       let o := setup_kubernetes_client w σ in
       result o = Ok ()
       ∧ heap (final o) = heap σ ++ [K8sClient root]
       ∧ _clients (final o) = <[_KUBERNETES_CLIENT := length (heap σ)]> (_clients σ)).
Proof.
  split; [|split].
  - intros root Hroot Hne. rewrite kubernetes_api_root_of_rule. unfold api_root_rule.
    rewrite Hroot. destruct root; [done|]. reflexivity.
  - intros host port Hunset Hhost Hport.
    rewrite kubernetes_api_root_of_rule. unfold api_root_rule, HOST, PORT.
    rewrite Hunset, Hhost, Hport. split; [reflexivity|].
    split; intros -> ->; reflexivity.
  - intros root Hroot Hext. unfold setup_kubernetes_client.
    rewrite kubernetes_api_root_of_rule in Hroot. cbn in Hroot.
    erewrite run_bind_ok by (rewrite kubernetes_api_root_of_rule, Hroot; reflexivity).
    rewrite prepend_nil. unfold construct. rewrite Hext, bind_alloc. cbn. done.
Qed.

Lemma setup_kubernetes_client_api_root_witness :
  kubernetes_api_root_of pod_world initial = Outcome (Ok "https://[::1]:443") initial [].
Proof.
  apply (proj1 (proj1 (proj2 (setup_kubernetes_client_api_root pod_world initial))
                 "::1" "443" eq_refl eq_refl eq_refl)).
Defined.

(** C3: with no configured root, a missing service host or a missing
    service port makes [setup_kubernetes_client] fail with
    MissingConfiguration (the [KeyError] of [os.environ]); no client is
    built and the registry is left as it was. *)
Theorem setup_kubernetes_client_missing_configuration (w : World) (σ : state) :
  truthy (kubernetes_api_root (CONF w)) = false →
  environ w !! "KUBERNETES_SERVICE_HOST" = None
  ∨ environ w !! "KUBERNETES_SERVICE_PORT_HTTPS" = None →
  ∃ e, setup_kubernetes_client w σ = Outcome (Raise e) σ []
       ∧ MissingConfiguration e
       ∧ exc_type e = KeyError.
Proof.
  intros Hunset Hmissing. unfold setup_kubernetes_client.
  assert (∃ e, api_root_rule w = Raise e ∧ MissingConfiguration e ∧ exc_type e = KeyError)
    as (e & He & Hm & Ht).
  { unfold api_root_rule, MissingConfiguration, HOST, PORT. rewrite Hunset.
    destruct (environ w !! "KUBERNETES_SERVICE_HOST") as [host|].
    - destruct Hmissing as [Hh | Hp]; [done|]. rewrite Hp. eexists. split; [reflexivity|]. auto.
    - eexists. split; [reflexivity|]. auto. }
  exists e. split; [|done].
  apply run_bind_raise. by rewrite kubernetes_api_root_of_rule, He.
Qed.

Lemma setup_kubernetes_client_missing_configuration_witness :
  ∃ e, setup_kubernetes_client portless_world initial = Outcome (Raise e) initial []
       ∧ MissingConfiguration e
       ∧ exc_type e = KeyError.
Proof.
  apply (setup_kubernetes_client_missing_configuration portless_world initial eq_refl).
  right. reflexivity.
Defined.

(** ** Relations that every step of a computation keeps *)

Section keeps.

Context (R : relation state) `{!Reflexive R} `{!Transitive R}.

Lemma keeps_mret {A} (a : A) : keeps R (mret a).
Proof. intros σ. split; [reflexivity | constructor]. Qed.

Lemma keeps_raise {A} e : keeps R (@raise A e).
Proof. intros σ. split; [reflexivity | constructor]. Qed.

Lemma keeps_gets {A} (g : state → A) : keeps R (gets g).
Proof. intros σ. split; [reflexivity | constructor]. Qed.

Lemma keeps_lift {A} (r : except A) : keeps R (lift r).
Proof. destruct r; [apply keeps_mret | apply keeps_raise]. Qed.

Lemma keeps_load l : keeps R (load l).
Proof.
  intros σ. unfold load. destruct (heap σ !! l); (split; [reflexivity | constructor]).
Qed.

Lemma keeps_modify g : (∀ σ, R σ (g σ)) → keeps R (modify g).
Proof. intros Hg σ. split; [apply Hg | repeat constructor; apply Hg]. Qed.

Lemma keeps_alloc o :
  (∀ σ, R σ (State (_clients σ) (heap σ ++ [o]) (warnings σ) (requests σ))) →
  keeps R (alloc o).
Proof. intros Hg σ. split; [apply Hg | repeat constructor; apply Hg]. Qed.

Lemma keeps_bind {A B} (m : M A) (f : A → M B) :
  keeps R m → (∀ a, keeps R (f a)) → keeps R (m ≫= f).
Proof.
  intros Hm Hf σ. destruct (Hm σ) as [Hfin Htr].
  unfold mbind, M_bind. destruct (m σ) as [[a|e] σ1 t1]; cbn in *; [|done].
  destruct (Hf a σ1) as [Hfin' Htr']. split; [by etrans|].
  apply Forall_app. split; [done|].
  eapply Forall_impl; [exact Htr'|]. intros σ2 ?. by etrans.
Qed.

Lemma keeps_try_except {A} (m h : M A) cls :
  keeps R m → keeps R h → keeps R (try_except m cls h).
Proof.
  intros Hm Hh σ. destruct (Hm σ) as [Hfin Htr].
  unfold try_except. destruct (m σ) as [[a|e] σ1 t1]; cbn in *; [done|].
  destruct (issubclass _ _); [|done].
  destruct (Hh σ1) as [Hfin' Htr']. split; [by etrans|].
  apply Forall_app. split; [done|].
  eapply Forall_impl; [exact Htr'|]. intros σ2 ?. by etrans.
Qed.

Lemma keeps_subscript {A} (d : gmap string A) k : keeps R (subscript d k).
Proof. unfold subscript. destruct (d !! k); [apply keeps_mret | apply keeps_raise]. Qed.

Lemma keeps_clients_item k : keeps R (_clients_item k).
Proof. apply keeps_bind; [apply keeps_gets | intros; apply keeps_subscript]. Qed.

Lemma keeps_attr_network c : keeps R (attr_network c).
Proof.
  apply keeps_bind; [apply keeps_load | intros []; auto using keeps_mret, keeps_raise].
Qed.

Lemma keeps_on_exception {A} (m : M A) (h : M unit) :
  keeps R m → keeps R h → keeps R (on_exception m h).
Proof.
  intros Hm Hh σ. destruct (Hm σ) as [Hfin Htr].
  unfold on_exception. destruct (m σ) as [[a|e] σ1 t1]; cbn in *; [done|].
  destruct (keeps_bind h (λ _, @raise A e) Hh (λ _, keeps_raise e) σ1) as [Hfin' Htr'].
  split; [by etrans|].
  apply Forall_app. split; [done|].
  eapply Forall_impl; [exact Htr'|]. intros σ2 ?. by etrans.
Qed.

Lemma keeps_external w c : keeps R (external w c).
Proof. unfold external. destruct (ext_fail w c); [apply keeps_raise | apply keeps_mret]. Qed.

Lemma keeps_api_root w : keeps R (kubernetes_api_root_of w).
Proof.
  intros σ. rewrite kubernetes_api_root_of_rule. split; [reflexivity | constructor].
Qed.

End keeps.

Global Instance same_entries_outside_refl K : Reflexive (same_entries_outside K).
Proof. by intros σ k. Qed.

Global Instance same_entries_outside_trans K : Transitive (same_entries_outside K).
Proof. intros σ1 σ2 σ3 H12 H23 k Hk. by rewrite H23, H12. Qed.

Global Instance objects_kept_refl : Reflexive objects_kept.
Proof. by intros σ l o. Qed.

Global Instance objects_kept_trans : Transitive objects_kept.
Proof. intros σ1 σ2 σ3 H12 H23 l o Hl. eauto. Qed.

Global Instance same_or_grown_refl : Reflexive same_or_grown.
Proof. intros []; cbn; eauto 6. Qed.

Global Instance same_or_grown_trans : Transitive same_or_grown.
Proof.
  intros [] o2 o3; cbn; try by intros ->.
  intros (lb' & cp' & -> & Hlb & Hcp) (lb'' & cp'' & -> & Hlb' & Hcp').
  exists lb'', cp''. split; [done|]. split; intros l Hl; auto.
Qed.

Lemma same_or_grown_sdk o o' : same_or_grown o o' → is_sdk_object o' = is_sdk_object o.
Proof. destruct o; cbn; try by intros ->. by intros (? & ? & -> & _). Qed.

Lemma same_or_grown_fixed o o' : same_or_grown o o' → is_fixed_object o' = is_fixed_object o.
Proof. destruct o; cbn; try by intros ->. by intros (? & ? & -> & _). Qed.

Lemma same_or_grown_instance k o o' : same_or_grown o o' → instance_of k o' = instance_of k o.
Proof. destruct o; cbn; try by intros ->. by intros (? & ? & -> & _). Qed.



Global Instance sdk_objects_kept_refl : Reflexive sdk_objects_kept.
Proof. intros σ l o Hl _. by exists o. Qed.

Global Instance sdk_objects_kept_trans : Transitive sdk_objects_kept.
Proof.
  intros σ1 σ2 σ3 H12 H23 l o Hl Ho.
  destruct (H12 l o Hl Ho) as (o2 & Hl2 & Hg2).
  destruct (H23 l o2 Hl2) as (o3 & Hl3 & Hg3); [by rewrite (same_or_grown_sdk o)|].
  exists o3. split; [done | by etrans].
Qed.

Lemma keeps_mono (R R' : relation state) {A} (m : M A) :
  (∀ σ σ', R σ σ' → R' σ σ') → keeps R m → keeps R' m.
Proof.
  intros HR Hm σ. destruct (Hm σ) as [Hfin Htr]. split; [auto|].
  eapply Forall_impl; [exact Htr | auto].
Qed.

Global Instance objects_grown_refl : Reflexive objects_grown.
Proof. intros σ l o Hl. by exists o. Qed.

Global Instance objects_grown_trans : Transitive objects_grown.
Proof.
  intros σ1 σ2 σ3 H12 H23 l o Hl.
  destruct (H12 l o Hl) as (o2 & Hl2 & Hg2). destruct (H23 l o2 Hl2) as (o3 & Hl3 & Hg3).
  exists o3. split; [done | by etrans].
Qed.

Lemma objects_kept_grown σ σ' : objects_kept σ σ' → objects_grown σ σ'.
Proof. intros H l o Hl. exists o. split; [auto | reflexivity]. Qed.

Lemma objects_grown_sdk σ σ' : objects_grown σ σ' → sdk_objects_kept σ σ'.
Proof. intros H l o Hl _. auto. Qed.

Lemma objects_kept_sdk σ σ' : objects_kept σ σ' → sdk_objects_kept σ σ'.
Proof. intros H. by apply objects_grown_sdk, objects_kept_grown. Qed.

Lemma keeps_raise_from_response R `{!Reflexive R} response :
  keeps R (raise_from_response response).
Proof.
  unfold raise_from_response.
  destruct (_ <? _); [apply keeps_mret | apply keeps_raise]; done.
Qed.

Ltac solve_class :=
  lazymatch goal with
  | |- Reflexive _ => apply _
  | |- Transitive _ => apply _
  end.

(** Goes down a computation along its binds and branches, closing the
    leaves with the lemmas above and those of the hint database. *)
Ltac keeps_auto db :=
  repeat first
    [ solve_class
    | solve [eauto 2 with db]
    | apply keeps_mret | apply keeps_raise | apply keeps_gets | apply keeps_lift
    | apply keeps_load | apply keeps_subscript | apply keeps_clients_item
    | apply keeps_attr_network | apply keeps_on_exception
    | apply keeps_external | apply keeps_api_root | apply keeps_raise_from_response
    | apply keeps_try_except
    | apply keeps_bind; [.. | | intros ?]
    | match goal with
      | |- keeps _ (match ?x with _ => _ end) => destruct x
      end ].

Create HintDb entries.
Create HintDb objects.
Create HintDb sdk.

(** *** The registry under each primitive *)

Lemma entries_alloc K o : keeps (same_entries_outside K) (alloc o).
Proof. apply keeps_alloc; try solve_class. by intros σ k. Qed.

Lemma entries_store K l o : keeps (same_entries_outside K) (store l o).
Proof. apply keeps_modify. by intros σ k. Qed.

Lemma entries_warn K msg : keeps (same_entries_outside K) (warn msg).
Proof. apply keeps_modify. by intros σ k. Qed.

Lemma entries_set_client K k l : k ∈ K → keeps (same_entries_outside K) (set_client k l).
Proof.
  intros Hk. apply keeps_modify. intros σ k' Hk'. cbn.
  apply lookup_insert_ne. by intros ->.
Qed.

Lemma entries_send K w r : keeps (same_entries_outside K) (send w r).
Proof.
  apply keeps_bind; try solve_class; [| intros; apply keeps_lift; solve_class].
  apply keeps_modify. by intros σ k.
Qed.

#[global] Hint Resolve entries_alloc entries_store entries_warn entries_send : entries.

(** *** The heap under each primitive *)

Lemma objects_alloc o : keeps objects_kept (alloc o).
Proof.
  apply keeps_alloc; try solve_class. intros σ l o' Hl. cbn. by apply lookup_app_l_Some.
Qed.

Lemma objects_warn msg : keeps objects_kept (warn msg).
Proof. apply keeps_modify. by intros σ l o. Qed.

Lemma objects_set_client k l : keeps objects_kept (set_client k l).
Proof. apply keeps_modify. by intros σ l' o. Qed.

Lemma objects_send w r : keeps objects_kept (send w r).
Proof.
  apply keeps_bind; try solve_class; [| intros; apply keeps_lift; solve_class].
  apply keeps_modify. by intros σ l o.
Qed.

#[global] Hint Resolve objects_alloc objects_warn objects_set_client objects_send : objects.

(** ** What [setup_openstacksdk] does, step by step *)

Lemma lookup_app_plus {A} (h l : list A) i : (h ++ l) !! (length h + i)%nat = l !! i.
Proof. rewrite lookup_app_r by lia. f_equal. lia. Qed.

Lemma sdk_heap_network h r a : sdk_heap h r a !! length h = Some (Proxy a).
Proof. unfold sdk_heap. by rewrite <- (Nat.add_0_r (length h)) at 1; rewrite lookup_app_plus. Qed.

Lemma sdk_heap_conn h r a :
  sdk_heap h r a !! sdk_conn h = Some (Connection r (length h) None None).
Proof. unfold sdk_heap, sdk_conn. by rewrite lookup_app_plus. Qed.

Lemma sdk_heap_insert h r a a' :
  <[length h := Proxy a']> (sdk_heap h r a) = sdk_heap h r a'.
Proof.
  unfold sdk_heap. rewrite <- (Nat.add_0_r (length h)) at 1. by rewrite insert_app_r.
Qed.

Lemma run_attr_network c r n lb cp σ :
  heap σ !! c = Some (Connection r n lb cp) → attr_network c σ = Outcome (Ok n) σ [].
Proof.
  intros H. unfold attr_network.
  erewrite run_bind_ok by (unfold load; rewrite H; reflexivity). apply prepend_nil.
Qed.

Lemma run_set_attr p attrs name a σ :
  heap σ !! p = Some (Proxy attrs) →
  set_attr p name a σ
  = Outcome (Ok ()) (with_heap σ (<[p := Proxy (<[name := a]> attrs)]> (heap σ)))
      [with_heap σ (<[p := Proxy (<[name := a]> attrs)]> (heap σ))].
Proof.
  intros H. unfold set_attr.
  erewrite run_bind_ok by (unfold load; rewrite H; reflexivity). apply prepend_nil.
Qed.

Lemma run_new_Connection w r σ :
  ext_fail w connection_Connection = None →
  new_Connection w r σ
  = Outcome (Ok (sdk_conn (heap σ))) (with_heap σ (sdk_heap (heap σ) r ∅))
      (take 2 (setup_openstacksdk_trace r σ)).
Proof.
  intros H. unfold new_Connection. rewrite H. rewrite !bind_alloc.
  unfold alloc, prepend, with_heap, sdk_heap, sdk_conn. cbn.
  rewrite !length_app, <- !app_assoc. cbn.
  rewrite <- ?Nat.add_assoc. reflexivity.
Qed.

Lemma with_heap_heap σ h : heap (with_heap σ h) = h.
Proof. reflexivity. Qed.

Lemma with_heap_with_heap σ h h' : with_heap (with_heap σ h) h' = with_heap σ h'.
Proof. reflexivity. Qed.

Lemma run_setup_openstacksdk w σ :
  setup_openstacksdk w σ
  = match sdk_failure w with
    | Some e => Outcome (Raise e) σ []
    | None =>
        Outcome (Ok ()) (setup_openstacksdk_final (neutron_region_name (CONF w)) σ)
          (setup_openstacksdk_trace (neutron_region_name (CONF w)) σ)
    end.
Proof.
  unfold setup_openstacksdk, sdk_failure, external.
  destruct (ext_fail w utils_get_auth_plugin); [by rewrite bind_raise|].
  rewrite bind_mret.
  destruct (ext_fail w utils_get_keystone_session); [by rewrite bind_raise|].
  rewrite bind_mret.
  destruct (ext_fail w connection_Connection) eqn:Hc.
  { apply run_bind_raise. unfold new_Connection. by rewrite Hc. }
  erewrite run_bind_ok by (by apply run_new_Connection).
  set (r := neutron_region_name (CONF w)). set (h := heap σ).
  do 3 (
    erewrite (run_bind_ok (attr_network _))
      by (eapply run_attr_network; rewrite with_heap_heap; apply sdk_heap_conn);
    rewrite prepend_nil;
    erewrite (run_bind_ok (attr_network _))
      by (eapply run_attr_network; rewrite with_heap_heap; apply sdk_heap_conn);
    rewrite prepend_nil;
    erewrite (run_bind_ok (set_attr _ _ _))
      by (eapply run_set_attr; rewrite with_heap_heap; apply sdk_heap_network);
    rewrite with_heap_heap, sdk_heap_insert, with_heap_with_heap).
  reflexivity.
Qed.

Lemma objects_kept_app σ l : objects_kept σ (with_heap σ (heap σ ++ l)).
Proof. intros i o Hi. cbn. by apply lookup_app_l_Some. Qed.

Lemma objects_kept_with_clients σ σ' c :
  objects_kept σ σ' → objects_kept σ (with_clients σ' c).
Proof. intros H i o Hi. cbn. auto. Qed.

Lemma entries_with_heap K σ h : same_entries_outside K σ (with_heap σ h).
Proof. by intros k. Qed.

Lemma objects_setup_openstacksdk w : keeps objects_kept (setup_openstacksdk w).
Proof.
  intros σ. rewrite run_setup_openstacksdk. destruct (sdk_failure w).
  { split; [reflexivity | constructor]. }
  cbn [final trace]. unfold setup_openstacksdk_final, setup_openstacksdk_trace, sdk_heap.
  split; [apply objects_kept_with_clients, objects_kept_app|].
  repeat constructor;
    first [apply objects_kept_app | apply objects_kept_with_clients, objects_kept_app].
Qed.

Lemma entries_setup_openstacksdk K w :
  _OPENSTACKSDK ∈ K → keeps (same_entries_outside K) (setup_openstacksdk w).
Proof.
  intros HK σ. rewrite run_setup_openstacksdk. destruct (sdk_failure w).
  { split; [reflexivity | constructor]. }
  assert (same_entries_outside K σ
            (setup_openstacksdk_final (neutron_region_name (CONF w)) σ)) as Hfin.
  { intros k Hk. cbn. apply lookup_insert_ne. intros E. apply Hk. by rewrite <- E. }
  split; [done|]. repeat constructor; try apply entries_with_heap. done.
Qed.

(** *** Every function of the module *)

Lemma entries_construct K w c o : keeps (same_entries_outside K) (construct w c o).
Proof. unfold construct. keeps_auto entries. Qed.

Lemma objects_construct w c o : keeps objects_kept (construct w c o).
Proof. unfold construct. keeps_auto objects. Qed.

#[global] Hint Resolve entries_construct entries_set_client : entries.
#[global] Hint Resolve objects_construct objects_setup_openstacksdk : objects.

Lemma entries_setter K w k : key k ∈ K → keeps (same_entries_outside K) (setter w k).
Proof.
  intros HK. destruct k; cbn in *.
  - unfold setup_neutron_client. keeps_auto entries.
  - unfold setup_kubernetes_client. keeps_auto entries.
  - by apply entries_setup_openstacksdk.
  - unfold setup_pod_resources_client. keeps_auto entries.
Qed.

Lemma objects_setter w k : keeps objects_kept (setter w k).
Proof.
  destruct k; cbn.
  - unfold setup_neutron_client. keeps_auto objects.
  - unfold setup_kubernetes_client. keeps_auto objects.
  - apply objects_setup_openstacksdk.
  - unfold setup_pod_resources_client. keeps_auto objects.
Qed.

Lemma entries_setup_clients K w :
  _NEUTRON_CLIENT ∈ K → _KUBERNETES_CLIENT ∈ K → _OPENSTACKSDK ∈ K →
  keeps (same_entries_outside K) (setup_clients w).
Proof.
  intros. unfold setup_clients.
  apply keeps_bind; [solve_class | by apply (entries_setter K w neutron) | intros _].
  apply keeps_bind; [solve_class | by apply (entries_setter K w kubernetes) | intros _].
  by apply (entries_setter K w openstacksdk).
Qed.

Lemma objects_setup_clients w : keeps objects_kept (setup_clients w).
Proof.
  unfold setup_clients.
  apply keeps_bind; [solve_class | apply (objects_setter w neutron) | intros _].
  apply keeps_bind; [solve_class | apply (objects_setter w kubernetes) | intros _].
  apply (objects_setter w openstacksdk).
Qed.

Lemma entries_getter K k : keeps (same_entries_outside K) (getter k).
Proof.
  destruct k; cbn; unfold get_neutron_client, removals_remove, get_kubernetes_client,
    get_openstacksdk, get_pod_resources_client; keeps_auto entries.
Qed.

Lemma objects_getter k : keeps objects_kept (getter k).
Proof.
  destruct k; cbn; unfold get_neutron_client, removals_remove, get_kubernetes_client,
    get_openstacksdk, get_pod_resources_client; keeps_auto objects.
Qed.

Lemma entries_get_network_client K : keeps (same_entries_outside K) get_network_client.
Proof. unfold get_network_client. keeps_auto entries. Qed.

Lemma entries_get_loadbalancer_client K w :
  keeps (same_entries_outside K) (get_loadbalancer_client w).
Proof.
  unfold get_loadbalancer_client, get_openstacksdk, attr_load_balancer.
  keeps_auto entries.
Qed.

Lemma entries_get_compute_client K w :
  keeps (same_entries_outside K) (get_compute_client w).
Proof. unfold get_compute_client, attr_compute. keeps_auto entries. Qed.

Lemma objects_get_network_client : keeps objects_kept get_network_client.
Proof. unfold get_network_client. keeps_auto objects. Qed.

(** The first read of a service attribute: the proxy is made, then the
    connection is given it. *)
Lemma run_attr_load_balancer w c σ :
  attr_load_balancer w c σ
  = match heap σ !! c with
    | Some (Connection r n (Some lb) cp) => Outcome (Ok lb) σ []
    | Some (Connection r n None cp) =>
        match ext_fail w (service_proxy "load-balancer") with
        | Some e => Outcome (Raise e) σ []
        | None =>
            Outcome (Ok (length (heap σ)))
              (with_heap σ
                 (<[c := Connection r n (Some (length (heap σ))) cp]> (heap σ ++ [Proxy ∅])))
              [with_heap σ (heap σ ++ [Proxy ∅]);
               with_heap σ
                 (<[c := Connection r n (Some (length (heap σ))) cp]> (heap σ ++ [Proxy ∅]))]
        end
    | _ => Outcome (Raise attribute_error) σ []
    end.
Proof.
  unfold attr_load_balancer. rewrite bind_load.
  destruct (heap σ !! c) as [[| | |r n [lb|] cp| | | |]|]; try done.
  unfold construct. destruct (ext_fail w _); [by rewrite bind_raise|].
  rewrite bind_alloc. unfold store. rewrite bind_modify. reflexivity.
Qed.

Lemma run_attr_compute w c σ :
  attr_compute w c σ
  = match heap σ !! c with
    | Some (Connection r n lb (Some cp)) => Outcome (Ok cp) σ []
    | Some (Connection r n lb None) =>
        match ext_fail w (service_proxy "compute") with
        | Some e => Outcome (Raise e) σ []
        | None =>
            Outcome (Ok (length (heap σ)))
              (with_heap σ
                 (<[c := Connection r n lb (Some (length (heap σ)))]> (heap σ ++ [Proxy ∅])))
              [with_heap σ (heap σ ++ [Proxy ∅]);
               with_heap σ
                 (<[c := Connection r n lb (Some (length (heap σ)))]> (heap σ ++ [Proxy ∅]))]
        end
    | _ => Outcome (Raise attribute_error) σ []
    end.
Proof.
  unfold attr_compute. rewrite bind_load.
  destruct (heap σ !! c) as [[| | |r n lb [cp|]| | | |]|]; try done.
  unfold construct. destruct (ext_fail w _); [by rewrite bind_raise|].
  rewrite bind_alloc. unfold store. rewrite bind_modify. reflexivity.
Qed.

Lemma objects_grown_built σ c r n lb cp lb' cp' o :
  heap σ !! c = Some (Connection r n lb cp) →
  (∀ l, lb = Some l → lb' = Some l) →
  (∀ l, cp = Some l → cp' = Some l) →
  objects_grown σ (with_heap σ (<[c := Connection r n lb' cp']> (heap σ ++ [o]))).
Proof.
  intros Hc Hlb Hcp i oi Hi. cbn. pose proof (lookup_lt_Some _ _ _ Hc) as Hlt.
  destruct (decide (i = c)) as [->|Hne].
  - exists (Connection r n lb' cp').
    rewrite list_lookup_insert_eq by (rewrite length_app; lia). split; [done|].
    rewrite Hc in Hi. injection Hi as <-. cbn. eauto.
  - exists oi. rewrite list_lookup_insert_ne by done.
    split; [by apply lookup_app_l_Some | reflexivity].
Qed.

Lemma grown_attr_load_balancer w c : keeps objects_grown (attr_load_balancer w c).
Proof.
  intros σ. rewrite run_attr_load_balancer.
  destruct (heap σ !! c) as [[| | |r n [lb|] cp| | | |]|] eqn:Hc;
    try (split; [reflexivity | constructor]).
  destruct (ext_fail w _); [split; [reflexivity | constructor]|]. cbn [final trace].
  assert (objects_grown σ
            (with_heap σ (<[c := Connection r n (Some (length (heap σ))) cp]>
                            (heap σ ++ [Proxy ∅])))) as Hfin.
  { eapply objects_grown_built; [exact Hc | done | auto]. }
  split; [done|]. constructor; [|by constructor].
  apply objects_kept_grown, objects_kept_app.
Qed.

Lemma grown_attr_compute w c : keeps objects_grown (attr_compute w c).
Proof.
  intros σ. rewrite run_attr_compute.
  destruct (heap σ !! c) as [[| | |r n lb [cp|]| | | |]|] eqn:Hc;
    try (split; [reflexivity | constructor]).
  destruct (ext_fail w _); [split; [reflexivity | constructor]|]. cbn [final trace].
  assert (objects_grown σ
            (with_heap σ (<[c := Connection r n lb (Some (length (heap σ)))]>
                            (heap σ ++ [Proxy ∅])))) as Hfin.
  { eapply objects_grown_built; [exact Hc | auto | done]. }
  split; [done|]. constructor; [|by constructor].
  apply objects_kept_grown, objects_kept_app.
Qed.

Lemma grown_get_loadbalancer_client w : keeps objects_grown (get_loadbalancer_client w).
Proof.
  unfold get_loadbalancer_client, get_openstacksdk.
  apply keeps_bind; [solve_class | apply keeps_clients_item; solve_class | intros c].
  apply grown_attr_load_balancer.
Qed.

Lemma grown_get_compute_client w : keeps objects_grown (get_compute_client w).
Proof.
  unfold get_compute_client.
  apply keeps_bind; [solve_class | apply keeps_clients_item; solve_class | intros c].
  apply grown_attr_compute.
Qed.

(** *** The patch layer *)

Lemma sdk_alloc o : keeps sdk_objects_kept (alloc o).
Proof. eapply keeps_mono; [apply objects_kept_sdk | apply objects_alloc]. Qed.

Lemma sdk_send w r : keeps sdk_objects_kept (send w r).
Proof. eapply keeps_mono; [apply objects_kept_sdk | apply objects_send]. Qed.

Lemma sdk_insert_app σ l o o' tail :
  heap σ !! l = Some o → is_sdk_object o = false →
  sdk_objects_kept σ (with_heap σ (<[l := o']> (heap σ) ++ tail)).
Proof.
  intros Hl Ho i oi Hi Hsdk. cbn. exists oi. split; [|reflexivity].
  apply lookup_app_l_Some. rewrite list_lookup_insert_ne; [done|]. intros ->. congruence.
Qed.

Lemma sdk_insert σ l o o' :
  heap σ !! l = Some o → is_sdk_object o = false →
  sdk_objects_kept σ (with_heap σ (<[l := o']> (heap σ))).
Proof.
  intros Hl Ho. rewrite <- (app_nil_r (<[l := o']> (heap σ))). by eapply sdk_insert_app.
Qed.

(** [next] on a generator that has an item: the iterator moves on, then
    the port is made, or the exception finishes the generator. *)
Lemma run_next w g σ :
  next w g σ
  = match heap σ !! g with
    | Some (Generator []) => Outcome (Raise (Exn StopIteration None None)) σ []
    | Some (Generator (item :: rest)) =>
        match port_call w item with
        | Ok kwargs =>
            Outcome (Ok (length (heap σ)))
              (with_heap σ (<[g := Generator rest]> (heap σ) ++ [Port kwargs]))
              [with_heap σ (<[g := Generator rest]> (heap σ));
               with_heap σ (<[g := Generator rest]> (heap σ) ++ [Port kwargs])]
        | Raise e =>
            Outcome (Raise e) (with_heap σ (<[g := Generator []]> (heap σ)))
              [with_heap σ (<[g := Generator rest]> (heap σ));
               with_heap σ (<[g := Generator []]> (heap σ))]
        end
    | Some _ => Outcome (Raise (type_error "object is not an iterator")) σ []
    | None => Outcome (Raise attribute_error) σ []
    end.
Proof.
  unfold next. rewrite bind_load.
  destruct (heap σ !! g) as [[| | | | | | |[|item rest]]|]; try done.
  unfold store. rewrite bind_modify.
  unfold port_call, new_Port, on_exception.
  destruct (keyword_arguments item) as [kwargs|e]; cbn [lift].
  2: { rewrite bind_raise. cbn [result final trace].
       rewrite bind_modify. unfold with_heap, prepend, raise. cbn.
       by rewrite list_insert_insert_eq. }
  rewrite bind_mret.
  destruct (binds ["self"] kwargs).
  { unfold raise at 1 2 3.
    cbn [result final trace].
    rewrite bind_modify. unfold with_heap, prepend, raise. cbn.
    by rewrite list_insert_insert_eq. }
  destruct (binds ["_synchronized"; "connection"] kwargs).
  - destruct (ext_fail w _).
    + unfold raise at 1 2 3.
      cbn [result final trace].
      rewrite bind_modify. unfold with_heap, prepend, raise. cbn.
      by rewrite list_insert_insert_eq.
    + unfold alloc, prepend, with_heap. cbn.
      by rewrite length_insert.
  - unfold alloc, prepend, with_heap. cbn.
    by rewrite length_insert.
Qed.

Lemma sdk_next w g : keeps sdk_objects_kept (next w g).
Proof.
  intros σ. rewrite run_next.
  destruct (heap σ !! g) as [[| | | | | | |[|item rest]]|] eqn:Hg;
    try (split; [reflexivity | constructor]).
  destruct (port_call w item); cbn [final trace].
  all: split; [|repeat constructor].
  all: first [by eapply sdk_insert_app | by eapply sdk_insert].
Qed.

Lemma entries_next K w g : keeps (same_entries_outside K) (next w g).
Proof. unfold next, new_Port. keeps_auto entries. Qed.

Lemma sdk_update_attributes t k v : keeps sdk_objects_kept (update_attributes t k v).
Proof.
  intros σ. unfold update_attributes. rewrite bind_load.
  destruct (heap σ !! t) as [o|] eqn:Ht; [|split; [reflexivity | constructor]].
  destruct o; try (split; [reflexivity | constructor]).
  unfold store, modify. fold (with_heap σ). cbn [final trace].
  split; [|repeat constructor]; by eapply sdk_insert.
Qed.

Lemma entries_update_attributes K t k v : keeps (same_entries_outside K) (update_attributes t k v).
Proof. unfold update_attributes. keeps_auto entries. Qed.

#[global] Hint Resolve sdk_alloc sdk_send sdk_next sdk_update_attributes : sdk.
#[global] Hint Resolve entries_next entries_update_attributes : entries.

Lemma entries_create_ports K w self payload :
  keeps (same_entries_outside K) (_create_ports w self payload).
Proof. unfold _create_ports. keeps_auto entries. Qed.

Lemma sdk_create_ports w self payload : keeps sdk_objects_kept (_create_ports w self payload).
Proof. unfold _create_ports. keeps_auto sdk. Qed.

Lemma entries_add_trunk_subports K w self trunk subports :
  keeps (same_entries_outside K) (_add_trunk_subports w self trunk subports).
Proof. unfold _add_trunk_subports, _get_resource_Trunk, trunk_id. keeps_auto entries. Qed.

Lemma sdk_add_trunk_subports w self trunk subports :
  keeps sdk_objects_kept (_add_trunk_subports w self trunk subports).
Proof. unfold _add_trunk_subports, _get_resource_Trunk, trunk_id. keeps_auto sdk. Qed.

Lemma entries_delete_trunk_subports K w self trunk subports :
  keeps (same_entries_outside K) (_delete_trunk_subports w self trunk subports).
Proof. unfold _delete_trunk_subports, _get_resource_Trunk, trunk_id. keeps_auto entries. Qed.

Lemma sdk_delete_trunk_subports w self trunk subports :
  keeps sdk_objects_kept (_delete_trunk_subports w self trunk subports).
Proof. unfold _delete_trunk_subports, _get_resource_Trunk, trunk_id. keeps_auto sdk. Qed.

(** ** Calls and programs *)

Lemma step_entries w c σ :
  same_entries_outside (writes c) σ (step w c σ).1
  ∧ Forall (same_entries_outside (writes c) σ) (step w c σ).2.
Proof.
  destruct c; cbn [step effect fst snd writes].
  - apply entries_setter. set_solver.
  - apply entries_setup_clients; set_solver.
  - apply entries_getter.
  - apply entries_get_network_client.
  - apply entries_get_loadbalancer_client.
  - apply entries_get_compute_client.
  - apply entries_create_ports.
  - apply entries_next.
  - apply entries_add_trunk_subports.
  - apply entries_delete_trunk_subports.
Qed.

Lemma step_sdk_objects w c σ :
  sdk_objects_kept σ (step w c σ).1 ∧ Forall (sdk_objects_kept σ) (step w c σ).2.
Proof.
  destruct c; cbn [step effect fst snd].
  - eapply keeps_mono; [apply objects_kept_sdk | apply objects_setter].
  - eapply keeps_mono; [apply objects_kept_sdk | apply objects_setup_clients].
  - eapply keeps_mono; [apply objects_kept_sdk | apply objects_getter].
  - eapply keeps_mono; [apply objects_kept_sdk | apply objects_get_network_client].
  - eapply keeps_mono; [apply objects_grown_sdk | apply grown_get_loadbalancer_client].
  - eapply keeps_mono; [apply objects_grown_sdk | apply grown_get_compute_client].
  - apply sdk_create_ports.
  - apply sdk_next.
  - apply sdk_add_trunk_subports.
  - apply sdk_delete_trunk_subports.
Qed.

(** A key that no call of a program writes has, all along, the entry it
    had at the start. *)
Lemma program_entries k cs σ :
  Forall (λ wc, k ∉ writes wc.2) cs →
  _clients (run cs σ) !! k = _clients σ !! k
  ∧ Forall (λ σ', _clients σ' !! k = _clients σ !! k) (states cs σ).
Proof.
  intros Hcs. revert σ. induction Hcs as [|[w c] cs Hk _ IH]; intros σ; cbn.
  { split; [done | by repeat constructor]. }
  destruct (step_entries w c σ) as [Hfin Htr]. destruct (IH (step w c σ).1) as [IH1 IH2].
  cbn in Hk. split; [by rewrite IH1; apply Hfin|].
  constructor; [done|]. apply Forall_app. split.
  - eapply Forall_impl; [exact Htr|]. intros σ' H. by apply H.
  - eapply Forall_impl; [exact IH2|]. intros σ' ->. by apply Hfin.
Qed.

(** ** The accessors *)

Global Instance reads_only_refl : Reflexive reads_only.
Proof. by intros σ. Qed.

Global Instance reads_only_trans : Transitive reads_only.
Proof. intros σ1 σ2 σ3 (?&?&?) (?&?&?). repeat split; congruence. Qed.

Lemma reads_warn msg : keeps reads_only (warn msg).
Proof. apply keeps_modify. by intros σ. Qed.

Create HintDb reads.
#[global] Hint Resolve reads_warn : reads.

Lemma reads_getter k : keeps reads_only (getter k).
Proof.
  destruct k; cbn; unfold get_neutron_client, removals_remove, get_kubernetes_client,
    get_openstacksdk, get_pod_resources_client; keeps_auto reads.
Qed.

Lemma reads_get_network_client : keeps reads_only get_network_client.
Proof. unfold get_network_client. keeps_auto reads. Qed.



Lemma run_clients_item k σ : _clients_item k σ = Outcome (entry σ k) σ [].
Proof.
  unfold _clients_item, entry. rewrite bind_gets. unfold subscript.
  by destruct (_clients σ !! k).
Qed.

Lemma result_getter k σ : result (getter k σ) = entry σ (key k).
Proof.
  destruct k; cbn; unfold get_neutron_client, removals_remove, get_kubernetes_client,
    get_openstacksdk, get_pod_resources_client; try by rewrite run_clients_item.
  unfold warn. rewrite bind_modify, run_clients_item. reflexivity.
Qed.

(** The sub-client accessors read the connection's entry, then the
    attribute. *)
Lemma result_get_network_client σ :
  result (get_network_client σ)
  = match entry σ _OPENSTACKSDK with
    | Ok c => result (attr_network c σ)
    | Raise e => Raise e
    end.
Proof.
  unfold get_network_client.
  destruct (entry σ _OPENSTACKSDK) as [c|e] eqn:E.
  - erewrite run_bind_ok by (rewrite run_clients_item, E; reflexivity). by rewrite prepend_nil.
  - erewrite run_bind_raise by (rewrite run_clients_item, E; reflexivity). reflexivity.
Qed.

Lemma result_get_loadbalancer_client w σ :
  result (get_loadbalancer_client w σ)
  = match entry σ _OPENSTACKSDK with
    | Ok c => result (attr_load_balancer w c σ)
    | Raise e => Raise e
    end.
Proof.
  unfold get_loadbalancer_client, get_openstacksdk.
  destruct (entry σ _OPENSTACKSDK) as [c|e] eqn:E.
  - erewrite run_bind_ok by (rewrite run_clients_item, E; reflexivity). by rewrite prepend_nil.
  - erewrite run_bind_raise by (rewrite run_clients_item, E; reflexivity). reflexivity.
Qed.

Lemma result_get_compute_client w σ :
  result (get_compute_client w σ)
  = match entry σ _OPENSTACKSDK with
    | Ok c => result (attr_compute w c σ)
    | Raise e => Raise e
    end.
Proof.
  unfold get_compute_client.
  destruct (entry σ _OPENSTACKSDK) as [c|e] eqn:E.
  - erewrite run_bind_ok by (rewrite run_clients_item, E; reflexivity). by rewrite prepend_nil.
  - erewrite run_bind_raise by (rewrite run_clients_item, E; reflexivity). reflexivity.
Qed.

(** ** The factories *)

Example setup_clients_registry :
  _clients after_setup_clients !! _NEUTRON_CLIENT = Some 0%nat
  ∧ _clients after_setup_clients !! _KUBERNETES_CLIENT = Some 1%nat
  ∧ _clients after_setup_clients !! _OPENSTACKSDK = Some 3%nat
  ∧ _clients after_setup_clients !! _POD_RESOURCES_CLIENT = None.
Proof. repeat split; reflexivity. Qed.

Example setup_clients_objects :
  heap after_setup_clients !! 0%nat = Some NeutronClient
  ∧ heap after_setup_clients !! 1%nat = Some (K8sClient "https://[::1]:443")
  ∧ heap after_setup_clients !! 2%nat = Some (Proxy (patched 2 3))
  ∧ heap after_setup_clients !! 3%nat = Some (Connection None 2 None None).
Proof. repeat split; reflexivity. Qed.

Lemma run_construct_set w c o k σ :
  (construct w c o ≫= λ l, set_client k l) σ
  = match ext_fail w c with
    | Some e => Outcome (Raise e) σ []
    | None =>
        Outcome (Ok ())
          (with_clients (with_heap σ (heap σ ++ [o])) (<[k := length (heap σ)]> (_clients σ)))
          [with_heap σ (heap σ ++ [o]);
           with_clients (with_heap σ (heap σ ++ [o])) (<[k := length (heap σ)]> (_clients σ))]
    end.
Proof.
  unfold construct. destruct (ext_fail w c); [by rewrite bind_raise|].
  rewrite bind_alloc. reflexivity.
Qed.

Lemma run_setup_neutron_client w σ :
  setup_neutron_client w σ
  = match ext_fail w utils_get_neutron_client with
    | Some e => Outcome (Raise e) σ []
    | None =>
        Outcome (Ok ())
          (with_clients (with_heap σ (heap σ ++ [NeutronClient]))
             (<[_NEUTRON_CLIENT := length (heap σ)]> (_clients σ)))
          [with_heap σ (heap σ ++ [NeutronClient]);
           with_clients (with_heap σ (heap σ ++ [NeutronClient]))
             (<[_NEUTRON_CLIENT := length (heap σ)]> (_clients σ))]
    end.
Proof. unfold setup_neutron_client. apply run_construct_set. Qed.

Lemma run_setup_kubernetes_client w σ :
  setup_kubernetes_client w σ
  = match api_root_rule w with
    | Raise e => Outcome (Raise e) σ []
    | Ok root =>
        match ext_fail w (k8s_client_K8sClient root) with
        | Some e => Outcome (Raise e) σ []
        | None =>
            Outcome (Ok ())
              (with_clients (with_heap σ (heap σ ++ [K8sClient root]))
                 (<[_KUBERNETES_CLIENT := length (heap σ)]> (_clients σ)))
              [with_heap σ (heap σ ++ [K8sClient root]);
               with_clients (with_heap σ (heap σ ++ [K8sClient root]))
                 (<[_KUBERNETES_CLIENT := length (heap σ)]> (_clients σ))]
        end
    end.
Proof.
  unfold setup_kubernetes_client. destruct (api_root_rule w) as [root|e] eqn:E.
  - erewrite run_bind_ok by (rewrite kubernetes_api_root_of_rule, E; reflexivity).
    rewrite prepend_nil. apply run_construct_set.
  - apply run_bind_raise. by rewrite kubernetes_api_root_of_rule, E.
Qed.

Lemma run_setup_pod_resources_client w σ :
  setup_pod_resources_client w σ
  = match ext_fail w (pr_client_PodResourcesClient (sriov_kubelet_root_dir (CONF w))) with
    | Some e => Outcome (Raise e) σ []
    | None =>
        Outcome (Ok ())
          (with_clients
             (with_heap σ (heap σ ++ [PodResourcesClient (sriov_kubelet_root_dir (CONF w))]))
             (<[_POD_RESOURCES_CLIENT := length (heap σ)]> (_clients σ)))
          [with_heap σ (heap σ ++ [PodResourcesClient (sriov_kubelet_root_dir (CONF w))]);
           with_clients
             (with_heap σ (heap σ ++ [PodResourcesClient (sriov_kubelet_root_dir (CONF w))]))
             (<[_POD_RESOURCES_CLIENT := length (heap σ)]> (_clients σ))]
    end.
Proof. unfold setup_pod_resources_client. apply run_construct_set. Qed.

(** A factory that returns has written, under its key, the location of
    an object of its class that was not there before. *)
Lemma setter_ok w k σ :
  result (setter w k σ) = Ok () →
  ∃ l o,
    heap σ !! l = None
    ∧ heap (final (setter w k σ)) !! l = Some o
    ∧ instance_of k o = true
    ∧ _clients (final (setter w k σ)) !! key k = Some l.
Proof.
  destruct k; cbn [setter key].
  - unfold setup_neutron_client. rewrite run_construct_set.
    destruct (ext_fail w _); [done|]. intros _. cbn.
    exists (length (heap σ)), NeutronClient.
    rewrite lookup_ge_None_2 by lia. rewrite list_lookup_middle by done.
    by rewrite lookup_insert_eq.
  - unfold setup_kubernetes_client.
    destruct (api_root_rule w) as [root|e] eqn:E.
    + erewrite run_bind_ok by (rewrite kubernetes_api_root_of_rule, E; reflexivity).
      rewrite prepend_nil, run_construct_set.
      destruct (ext_fail w _); [done|]. intros _. cbn.
      exists (length (heap σ)), (K8sClient root).
      rewrite lookup_ge_None_2 by lia. rewrite list_lookup_middle by done.
      by rewrite lookup_insert_eq.
    + erewrite run_bind_raise by (rewrite kubernetes_api_root_of_rule, E; reflexivity).
      done.
  - rewrite run_setup_openstacksdk. destruct (sdk_failure w); [done|]. intros _.
    cbn [final]. unfold setup_openstacksdk_final. cbn [heap _clients with_clients with_heap].
    eexists (sdk_conn (heap σ)), _.
    rewrite sdk_heap_conn. unfold sdk_conn.
    rewrite lookup_ge_None_2 by lia. by rewrite lookup_insert_eq.
  - unfold setup_pod_resources_client. rewrite run_construct_set.
    destruct (ext_fail w _); [done|]. intros _. cbn.
    exists (length (heap σ)), (PodResourcesClient (sriov_kubelet_root_dir (CONF w))).
    rewrite lookup_ge_None_2 by lia. rewrite list_lookup_middle by done.
    by rewrite lookup_insert_eq.
Qed.

Lemma program_sdk_objects cs σ : sdk_objects_kept σ (run cs σ).
Proof.
  revert σ. induction cs as [|[w c] cs IH]; intros σ; cbn; [reflexivity|].
  etrans; [apply step_sdk_objects | apply IH].
Qed.

Lemma entry_initial k : entry initial k = Raise (key_error k).
Proof. reflexivity. Qed.

Lemma program_entry k cs σ :
  Forall (λ wc, k ∉ writes wc.2) cs → entry (run cs σ) k = entry σ k.
Proof. intros H. unfold entry. by rewrite (proj1 (program_entries k cs σ H)). Qed.

(** The factory of a key raises the failure the world has for it, having
    done nothing, and returns when the world has none. *)
Lemma run_setter_failure w k σ e :
  setup_failure w k = Some e → setter w k σ = Outcome (Raise e) σ [].
Proof.
  destruct k; cbn [setter setup_failure].
  - rewrite run_setup_neutron_client. by intros ->.
  - rewrite run_setup_kubernetes_client. destruct (api_root_rule w); [|by intros [= ->]].
    by intros ->.
  - rewrite run_setup_openstacksdk. by intros ->.
  - rewrite run_setup_pod_resources_client. by intros ->.
Qed.

Lemma result_setter w k σ :
  result (setter w k σ)
  = match setup_failure w k with
    | Some e => Raise e
    | None => Ok ()
    end.
Proof.
  destruct (setup_failure w k) as [e|] eqn:E; [by rewrite (run_setter_failure w k σ e)|].
  destruct k; cbn [setter setup_failure] in *.
  - rewrite run_setup_neutron_client. by rewrite E.
  - rewrite run_setup_kubernetes_client. destruct (api_root_rule w); [|done]. by rewrite E.
  - rewrite run_setup_openstacksdk. by rewrite E.
  - rewrite run_setup_pod_resources_client. by rewrite E.
Qed.

Lemma setter_raises w k σ e :
  result (setter w k σ) = Raise e → setter w k σ = Outcome (Raise e) σ [].
Proof.
  intros H. apply run_setter_failure. rewrite result_setter in H.
  destruct (setup_failure w k); congruence.
Qed.

(** C1: an accessor called in a program that has not run the factory of
    its key fails with NotInitialized (the [KeyError] of the registry
    lookup).  In a world that has no failure for it the factory returns,
    and from then on the accessor returns the location of the object the
    factory built, an object of the factory's class that did not exist
    before, whatever is called in between, the accessor itself included,
    short of the factory.  The accessors of the three sub-clients fail the
    same way before [setup_openstacksdk]; afterwards the network accessor
    returns the network proxy of the connection that was built. *)
Theorem accessor_before_and_after_setup :
  (∀ k cs,
     Forall (λ wc, key k ∉ writes wc.2) cs →
     ∃ e, result (getter k (run cs initial)) = Raise e ∧ NotInitialized (key k) e)
  ∧ (∀ k w σ,
       setup_failure w k = None →
       result (setter w k σ) = Ok ()
       ∧ ∃ l o,
           heap σ !! l = None
           ∧ heap (final (setter w k σ)) !! l = Some o
           ∧ instance_of k o = true
           ∧ ∀ cs, Forall (λ wc, key k ∉ writes wc.2) cs →
               result (getter k (run cs (final (setter w k σ)))) = Ok l)
  ∧ (∀ cs w,
       Forall (λ wc, _OPENSTACKSDK ∉ writes wc.2) cs →
       result (get_network_client (run cs initial)) = Raise (key_error _OPENSTACKSDK)
       ∧ result (get_loadbalancer_client w (run cs initial))
         = Raise (key_error _OPENSTACKSDK)
       ∧ result (get_compute_client w (run cs initial)) = Raise (key_error _OPENSTACKSDK))
  ∧ (∀ w σ,
       setup_failure w openstacksdk = None →
       ∃ c r n attrs,
         result (get_openstacksdk (final (setup_openstacksdk w σ))) = Ok c
         ∧ heap (final (setup_openstacksdk w σ)) !! c = Some (Connection r n None None)
         ∧ heap σ !! n = None
         ∧ heap (final (setup_openstacksdk w σ)) !! n = Some (Proxy attrs)
         ∧ ∀ cs, Forall (λ wc, _OPENSTACKSDK ∉ writes wc.2) cs →
             result (get_network_client (run cs (final (setup_openstacksdk w σ)))) = Ok n).
Proof.
  split; [|split; [|split]].
  - intros k cs Hcs. exists (key_error (key k)). split; [|done].
    by rewrite result_getter, program_entry, entry_initial.
  - intros k w σ Hw.
    assert (result (setter w k σ) = Ok ()) as Hok by (by rewrite result_setter, Hw).
    split; [done|].
    destruct (setter_ok w k σ Hok) as (l & o & Hnew & Hl & Ho & Hk).
    exists l, o. repeat split; try done. intros cs Hcs.
    rewrite result_getter, program_entry by done. unfold entry. by rewrite Hk.
  - intros cs w Hcs.
    rewrite result_get_network_client, result_get_loadbalancer_client,
      result_get_compute_client, program_entry by done.
    by rewrite entry_initial.
  - intros w σ Hw. cbn [setup_failure] in Hw.
    rewrite run_setup_openstacksdk, Hw. cbn [final].
    exists (sdk_conn (heap σ)), (neutron_region_name (CONF w)), (length (heap σ)),
      (patched (length (heap σ)) 3).
    assert (entry (setup_openstacksdk_final (neutron_region_name (CONF w)) σ) _OPENSTACKSDK
            = Ok (sdk_conn (heap σ))) as Hentry.
    { unfold entry, setup_openstacksdk_final. cbn [_clients with_clients].
      by rewrite lookup_insert_eq. }
    assert (heap (setup_openstacksdk_final (neutron_region_name (CONF w)) σ)
            !! sdk_conn (heap σ)
            = Some (Connection (neutron_region_name (CONF w)) (length (heap σ)) None None))
      as Hconn by apply sdk_heap_conn.
    split; [by rewrite (result_getter openstacksdk)|]. split; [done|].
    split; [by apply lookup_ge_None_2|]. split; [apply sdk_heap_network|].
    intros cs Hcs. rewrite result_get_network_client, program_entry, Hentry by done.
    destruct (program_sdk_objects cs _ _ _ Hconn eq_refl) as (o' & Ho' & lb' & cp' & -> & _).
    by erewrite run_attr_network.
Qed.

Lemma accessor_before_and_after_setup_witness :
  (∃ e, result (getter kubernetes (run [(pod_world, setup neutron)] initial)) = Raise e
        ∧ NotInitialized (key kubernetes) e)
  ∧ result (setter pod_world kubernetes initial) = Ok ()
  ∧ (∃ l o,
       heap initial !! l = None
       ∧ heap (final (setter pod_world kubernetes initial)) !! l = Some o
       ∧ instance_of kubernetes o = true
       ∧ result (getter kubernetes
                   (run [(pod_world, get kubernetes); (pod_world, setup neutron)]
                      (final (setter pod_world kubernetes initial)))) = Ok l)
  ∧ ∃ n,
      heap initial !! n = None
      ∧ result (get_network_client
                  (run [(pod_world, get_network); (pod_world, get_compute)]
                     (final (setup_openstacksdk pod_world initial)))) = Ok n.
Proof.
  destruct accessor_before_and_after_setup as (Hbefore & Hafter & _ & Hsdk).
  assert ("kubernetes-client" ∉ ["neutron-client"]) as Hne.
  { intros H. apply list_elem_of_singleton in H. discriminate H. }
  split; [|split; [|split]].
  - apply (Hbefore kubernetes [(pod_world, setup neutron)]).
    constructor; [exact Hne | constructor].
  - exact (proj1 (Hafter kubernetes pod_world initial eq_refl)).
  - destruct (Hafter kubernetes pod_world initial eq_refl)
      as (_ & l & o & Hnew & Hl & Ho & Hget).
    exists l, o.
    split; [exact Hnew|]. split; [exact Hl|]. split; [exact Ho|].
    apply Hget. constructor; [apply not_elem_of_nil|].
    constructor; [exact Hne | constructor].
  - destruct (Hsdk pod_world initial eq_refl) as (c & r & n & attrs & _ & _ & Hn & _ & Hget).
    exists n. split; [exact Hn|]. apply Hget.
    constructor; [apply not_elem_of_nil|]. constructor; [apply not_elem_of_nil | constructor].
Defined.

Lemma keeps_states (R : relation state) {A} (m : M A) σ :
  keeps R m → Forall (R σ) (final (m σ) :: trace (m σ)).
Proof. intros H. destruct (H σ). by constructor. Qed.

Lemma Forall_and {A} (P Q : A → Prop) l :
  Forall P l → Forall Q l → Forall (λ x, P x ∧ Q x) l.
Proof. intros HP HQ. apply Forall_forall. rewrite Forall_forall in HP, HQ. auto. Qed.

(** C10: at the end of a factory and at every state it goes through,
    every registry entry but the one of its own key is what it was, and
    so is every object that existed; for [setup_clients] the same holds
    outside the three keys of its factories, so the pod-resources entry is
    never touched.  An accessor leaves the registry as it was, whether it
    returns or raises: the accessors of the registry entries and of the
    network client change nothing but the warnings; those of the
    load-balancer and compute clients, which may make the connection build
    a proxy, leave the registry as it was in every world. *)
Theorem registry_frame (w : World) (σ : state) :
  (∀ k,
     Forall (λ σ', same_entries_outside [key k] σ σ' ∧ objects_kept σ σ')
       (final (setter w k σ) :: trace (setter w k σ)))
  ∧ Forall (λ σ',
        same_entries_outside [_NEUTRON_CLIENT; _KUBERNETES_CLIENT; _OPENSTACKSDK] σ σ'
        ∧ objects_kept σ σ'
        ∧ _clients σ' !! _POD_RESOURCES_CLIENT = _clients σ !! _POD_RESOURCES_CLIENT)
      (final (setup_clients w σ) :: trace (setup_clients w σ))
  ∧ (∀ k, Forall (reads_only σ) (final (getter k σ) :: trace (getter k σ)))
  ∧ Forall (reads_only σ) (final (get_network_client σ) :: trace (get_network_client σ))
  ∧ Forall (λ σ', _clients σ' = _clients σ)
      (final (get_loadbalancer_client w σ) :: trace (get_loadbalancer_client w σ))
  ∧ Forall (λ σ', _clients σ' = _clients σ)
      (final (get_compute_client w σ) :: trace (get_compute_client w σ)).
Proof.
  assert (∀ σ', same_entries_outside [] σ σ' → _clients σ' = _clients σ) as Heq.
  { intros σ' H. apply map_eq. intros k. apply H, not_elem_of_nil. }
  split; [|split; [|split; [|split; [|split]]]].
  - intros k. apply Forall_and; apply keeps_states.
    + apply entries_setter. set_solver.
    + apply objects_setter.
  - pose proof (keeps_states _ _ σ
      (entries_setup_clients [_NEUTRON_CLIENT; _KUBERNETES_CLIENT; _OPENSTACKSDK] w
         ltac:(set_solver) ltac:(set_solver) ltac:(set_solver))) as He.
    pose proof (keeps_states _ _ σ (objects_setup_clients w)) as Ho.
    apply Forall_and; [done|]. apply Forall_and; [done|].
    eapply Forall_impl; [exact He|]. intros σ' H. apply H.
    rewrite !not_elem_of_cons. repeat split; try done. apply not_elem_of_nil.
  - intros k. apply keeps_states, reads_getter.
  - apply keeps_states, reads_get_network_client.
  - eapply Forall_impl; [|exact Heq].
    apply keeps_states, entries_get_loadbalancer_client.
  - eapply Forall_impl; [|exact Heq].
    apply keeps_states, entries_get_compute_client.
Qed.

(** ** The patch layer is attached before the connection is published *)

Lemma preserves_bind I {A B} (m : M A) (f : A → M B) :
  preserves I m → (∀ a, preserves I (f a)) → preserves I (m ≫= f).
Proof.
  intros Hm Hf σ Hσ. destruct (Hm σ Hσ) as [Hfin Htr].
  unfold mbind, M_bind. destruct (m σ) as [[a|e] σ1 t1]; cbn in *; [|done].
  destruct (Hf a σ1 Hfin) as [Hfin' Htr']. split; [done|]. by apply Forall_app.
Qed.

Lemma published_patched_kept σ σ' :
  published_patched σ →
  _clients σ' !! _OPENSTACKSDK = _clients σ !! _OPENSTACKSDK →
  sdk_objects_kept σ σ' →
  published_patched σ'.
Proof.
  intros Hσ Hentry Hobj c Hc. rewrite Hentry in Hc.
  destruct (Hσ c Hc) as (r & n & lb & cp & Hconn & attrs & Hn & Hattrs).
  destruct (Hobj c _ Hconn eq_refl) as (o' & Ho' & lb' & cp' & -> & _).
  destruct (Hobj n _ Hn eq_refl) as (p' & Hp' & ->).
  exists r, n, lb', cp'. split; [done|]. by exists attrs.
Qed.

Lemma carries_patched h r σ :
  carries_patch_layer (with_heap σ (sdk_heap h r (patched (length h) 3))) (length h).
Proof.
  exists (patched (length h) 3). split; [apply sdk_heap_network|].
  unfold patched. split; [|split].
  - by rewrite !lookup_insert_ne by done.
  - by rewrite lookup_insert_ne by done.
  - by rewrite lookup_insert_eq.
Qed.

Lemma patched_setup_openstacksdk w : preserves published_patched (setup_openstacksdk w).
Proof.
  intros σ Hσ. rewrite run_setup_openstacksdk. destruct (sdk_failure w); [by split|].
  assert (published_patched (setup_openstacksdk_final (neutron_region_name (CONF w)) σ))
    as Hfin.
  { intros c Hc. cbn in Hc. rewrite lookup_insert_eq in Hc. injection Hc as <-.
    eexists _, _, _, _. split; [apply sdk_heap_conn|]. apply carries_patched. }
  split; [done|]. cbn [trace]. unfold setup_openstacksdk_trace, sdk_heap.
  repeat constructor; try done.
  all: eapply published_patched_kept; [exact Hσ | reflexivity |].
  all: apply objects_kept_sdk, objects_kept_app.
Qed.

Lemma patched_outside_sdk w c σ :
  _OPENSTACKSDK ∉ writes c →
  published_patched σ →
  published_patched (step w c σ).1 ∧ Forall published_patched (step w c σ).2.
Proof.
  intros Hc Hσ.
  destruct (step_entries w c σ) as [He Hes], (step_sdk_objects w c σ) as [Ho Hos].
  split; [by eapply published_patched_kept; [| apply He |]|].
  apply Forall_forall. intros σ' Hσ'. rewrite Forall_forall in Hes, Hos.
  eapply published_patched_kept; [exact Hσ | by apply Hes | by apply Hos].
Qed.

Lemma patched_setter w k : preserves published_patched (setter w k).
Proof.
  destruct k; try apply patched_setup_openstacksdk.
  all: intros σ Hσ.
  - apply (patched_outside_sdk w (setup neutron) σ); [|done].
    intros H%list_elem_of_singleton. discriminate H.
  - apply (patched_outside_sdk w (setup kubernetes) σ); [|done].
    intros H%list_elem_of_singleton. discriminate H.
  - apply (patched_outside_sdk w (setup pod_resources) σ); [|done].
    intros H%list_elem_of_singleton. discriminate H.
Qed.

Lemma patched_step w c σ :
  published_patched σ →
  published_patched (step w c σ).1 ∧ Forall published_patched (step w c σ).2.
Proof.
  intros Hσ. destruct c.
  1: by apply (patched_setter w k).
  1: { cbn [step effect fst snd]. unfold setup_clients.
       apply preserves_bind; [apply (patched_setter w neutron) | intros _ | done].
       apply preserves_bind; [apply (patched_setter w kubernetes) | intros _].
       apply (patched_setter w openstacksdk). }
  all: apply patched_outside_sdk; [apply not_elem_of_nil | done].
Qed.

Lemma published_patched_initial : published_patched initial.
Proof. intros c Hc. done. Qed.

Lemma patched_program cs σ :
  published_patched σ → Forall published_patched (states cs σ).
Proof.
  revert σ. induction cs as [|[w c] cs IH]; intros σ Hσ; cbn; [by repeat constructor|].
  destruct (patched_step w c σ Hσ) as [Hfin Htr].
  constructor; [done|]. apply Forall_app. split; [done | by apply IH].
Qed.

Lemma published_patched_network σ nc :
  published_patched σ → result (get_network_client σ) = Ok nc → carries_patch_layer σ nc.
Proof.
  intros Hσ. rewrite result_get_network_client. unfold entry.
  destruct (_clients σ !! _OPENSTACKSDK) as [c|] eqn:Hc; [|done].
  destruct (Hσ c Hc) as (r & n & lb & cp & Hconn & Hn).
  erewrite run_attr_network by done. cbn. by intros [= <-].
Qed.

(** C8: [setup_openstacksdk] changes the registry in the last state it
    goes through only, after the three assignments; so in every state a
    program of calls can be observed in, from the import of the module on
    and between any two mutations, a connection the registry holds has a
    network client with the three operations, and whatever
    [get_network_client] returns carries them. *)
Theorem patch_layer_attached_before_publication :
  (∀ w σ,
     Forall (λ σ', _clients σ' = _clients σ ∨ σ' = final (setup_openstacksdk w σ))
       (trace (setup_openstacksdk w σ)))
  ∧ (∀ w σ,
       published_patched σ →
       Forall published_patched
         (final (setup_openstacksdk w σ) :: trace (setup_openstacksdk w σ)))
  ∧ (∀ cs, Forall published_patched (states cs initial))
  ∧ (∀ cs,
       Forall (λ σ, ∀ nc, result (get_network_client σ) = Ok nc → carries_patch_layer σ nc)
         (states cs initial)).
Proof.
  split; [|split; [|split]].
  - intros w σ. rewrite run_setup_openstacksdk. destruct (sdk_failure w); [constructor|].
    cbn [trace final]. unfold setup_openstacksdk_trace.
    repeat constructor; by left.
  - intros w σ Hσ. destruct (patched_setup_openstacksdk w σ Hσ). by constructor.
  - intros cs. apply patched_program, published_patched_initial.
  - intros cs. eapply Forall_impl; [apply patched_program, published_patched_initial|].
    intros σ Hσ nc. by apply published_patched_network.
Qed.

Lemma patch_layer_attached_before_publication_witness :
  carries_patch_layer after_setup_clients 2.
Proof.
  pose proof (proj2 (proj2 (proj2 patch_layer_attached_before_publication))
                [(pod_world, setup_all)]) as H.
  rewrite Forall_forall in H. apply (H after_setup_clients); [|by vm_compute].
  cbn [states]. apply elem_of_cons. right. apply elem_of_app. right.
  apply list_elem_of_singleton. reflexivity.
Defined.

(** ** The registry over whole programs *)

Global Instance fixed_objects_kept_refl : Reflexive fixed_objects_kept.
Proof. intros σ l o Hl _. by exists o. Qed.

Global Instance fixed_objects_kept_trans : Transitive fixed_objects_kept.
Proof.
  intros σ1 σ2 σ3 H12 H23 l o Hl Ho.
  destruct (H12 l o Hl Ho) as (o2 & Hl2 & Hg2).
  destruct (H23 l o2 Hl2) as (o3 & Hl3 & Hg3); [by rewrite (same_or_grown_fixed o)|].
  exists o3. split; [done | by etrans].
Qed.

Lemma objects_grown_fixed σ σ' : objects_grown σ σ' → fixed_objects_kept σ σ'.
Proof. intros H l o Hl _. auto. Qed.

Lemma objects_kept_fixed σ σ' : objects_kept σ σ' → fixed_objects_kept σ σ'.
Proof. intros H. by apply objects_grown_fixed, objects_kept_grown. Qed.

Lemma fixed_insert_app σ l o o' tail :
  heap σ !! l = Some o → is_fixed_object o = false →
  fixed_objects_kept σ (with_heap σ (<[l := o']> (heap σ) ++ tail)).
Proof.
  intros Hl Ho i oi Hi Hfixed. cbn. exists oi. split; [|reflexivity].
  apply lookup_app_l_Some. rewrite list_lookup_insert_ne; [done|]. intros ->. congruence.
Qed.

Lemma fixed_insert σ l o o' :
  heap σ !! l = Some o → is_fixed_object o = false →
  fixed_objects_kept σ (with_heap σ (<[l := o']> (heap σ))).
Proof.
  intros Hl Ho. rewrite <- (app_nil_r (<[l := o']> (heap σ))). by eapply fixed_insert_app.
Qed.

Lemma fixed_alloc o : keeps fixed_objects_kept (alloc o).
Proof. eapply keeps_mono; [apply objects_kept_fixed | apply objects_alloc]. Qed.

Lemma fixed_send w r : keeps fixed_objects_kept (send w r).
Proof. eapply keeps_mono; [apply objects_kept_fixed | apply objects_send]. Qed.

Lemma fixed_next w g : keeps fixed_objects_kept (next w g).
Proof.
  intros σ. rewrite run_next.
  destruct (heap σ !! g) as [[| | | | | | |[|item rest]]|] eqn:Hg;
    try (split; [reflexivity | constructor]).
  destruct (port_call w item); cbn [final trace].
  all: split; [|repeat constructor].
  all: first [by eapply fixed_insert_app | by eapply fixed_insert].
Qed.

Lemma fixed_update_attributes t k v : keeps fixed_objects_kept (update_attributes t k v).
Proof.
  intros σ. unfold update_attributes. rewrite bind_load.
  destruct (heap σ !! t) as [o|] eqn:Ht; [|split; [reflexivity | constructor]].
  destruct o; try (split; [reflexivity | constructor]).
  unfold store, modify. fold (with_heap σ). cbn [final trace].
  split; [|repeat constructor]; by eapply fixed_insert.
Qed.

Create HintDb fixed.
#[global] Hint Resolve fixed_alloc fixed_send fixed_next fixed_update_attributes : fixed.

Lemma step_fixed_objects w c σ :
  fixed_objects_kept σ (step w c σ).1 ∧ Forall (fixed_objects_kept σ) (step w c σ).2.
Proof.
  destruct c; cbn [step effect fst snd].
  - eapply keeps_mono; [apply objects_kept_fixed | apply objects_setter].
  - eapply keeps_mono; [apply objects_kept_fixed | apply objects_setup_clients].
  - eapply keeps_mono; [apply objects_kept_fixed | apply objects_getter].
  - eapply keeps_mono; [apply objects_kept_fixed | apply objects_get_network_client].
  - eapply keeps_mono; [apply objects_grown_fixed | apply grown_get_loadbalancer_client].
  - eapply keeps_mono; [apply objects_grown_fixed | apply grown_get_compute_client].
  - unfold _create_ports. keeps_auto fixed.
  - apply fixed_next.
  - unfold _add_trunk_subports, _get_resource_Trunk, trunk_id. keeps_auto fixed.
  - unfold _delete_trunk_subports, _get_resource_Trunk, trunk_id. keeps_auto fixed.
Qed.

Lemma key_inj kd kd' : key kd = key kd' → kd = kd'.
Proof. by destruct kd, kd'. Qed.

Lemma key_registry kd : key kd ∈ registry_keys.
Proof. unfold registry_keys. destruct kd; cbn; rewrite !elem_of_cons; auto. Qed.

Lemma instance_is_fixed kd o : instance_of kd o = true → is_fixed_object o = true.
Proof. by destruct kd, o. Qed.

Lemma registry_is_live_kept σ σ' :
  registry_is_live σ → _clients σ' = _clients σ → fixed_objects_kept σ σ' →
  registry_is_live σ'.
Proof.
  intros [Hkeys Hlive] Heq Hobj. unfold registry_is_live. rewrite Heq. split; [done|].
  intros kd l Hl. destruct (Hlive kd l Hl) as (o & Ho & Hinst).
  destruct (Hobj l o Ho) as (o' & Ho' & Hg); [by eapply instance_is_fixed|].
  exists o'. split; [done|]. by rewrite (same_or_grown_instance kd o).
Qed.

Lemma registry_is_live_publish σ h kd l o :
  registry_is_live σ → objects_kept σ (with_heap σ h) →
  h !! l = Some o → instance_of kd o = true →
  registry_is_live (with_clients (with_heap σ h) (<[key kd := l]> (_clients σ))).
Proof.
  intros [Hkeys Hlive] Hobj Hl Hinst. split.
  - intros k Hk. cbn. rewrite lookup_insert_ne; [by apply Hkeys|].
    intros <-. apply Hk, key_registry.
  - intros kd' l'. cbn. destruct (decide (kd' = kd)) as [->|Hne].
    + rewrite lookup_insert_eq. intros [= <-]. eauto.
    + rewrite lookup_insert_ne by (intros ?%key_inj; done).
      intros Hl'. destruct (Hlive kd' l' Hl') as (o' & Ho' & Hinst').
      exists o'. split; [by apply Hobj | done].
Qed.

Lemma live_construct_set w c o kd :
  instance_of kd o = true →
  preserves registry_is_live (construct w c o ≫= λ l, set_client (key kd) l).
Proof.
  intros Hinst σ Hσ. rewrite run_construct_set. destruct (ext_fail w c); [by split|].
  cbn [final trace].
  assert (registry_is_live (with_clients (with_heap σ (heap σ ++ [o]))
                              (<[key kd := length (heap σ)]> (_clients σ)))) as Hfin.
  { apply (registry_is_live_publish σ _ kd _ o); try done.
    - apply objects_kept_app.
    - by apply list_lookup_middle. }
  split; [done|]. constructor; [|constructor; [exact Hfin | constructor]].
  eapply registry_is_live_kept; [exact Hσ | done |].
  apply objects_kept_fixed, objects_kept_app.
Qed.

Lemma live_setter w kd : preserves registry_is_live (setter w kd).
Proof.
  destruct kd; cbn [setter].
  - apply (live_construct_set w _ _ neutron). done.
  - unfold setup_kubernetes_client. apply preserves_bind.
    + intros σ Hσ. rewrite kubernetes_api_root_of_rule. by split.
    + intros root. apply (live_construct_set w _ _ kubernetes). done.
  - intros σ Hσ. rewrite run_setup_openstacksdk. destruct (sdk_failure w); [by split|].
    cbn [final trace].
    assert (registry_is_live (setup_openstacksdk_final (neutron_region_name (CONF w)) σ))
      as Hfin.
    { eapply (registry_is_live_publish σ _ openstacksdk); [done | | apply sdk_heap_conn | done].
      apply objects_kept_app. }
    split; [done|]. unfold setup_openstacksdk_trace, sdk_heap.
    do 5 (constructor;
          [eapply registry_is_live_kept;
             [exact Hσ | done | apply objects_kept_fixed, objects_kept_app]|]).
    constructor; [exact Hfin | constructor].
  - apply (live_construct_set w _ _ pod_resources). done.
Qed.

Lemma live_outside w c σ :
  writes c = [] → registry_is_live σ →
  registry_is_live (step w c σ).1 ∧ Forall registry_is_live (step w c σ).2.
Proof.
  intros Hc Hσ.
  destruct (step_entries w c σ) as [He Hes], (step_fixed_objects w c σ) as [Ho Hos].
  rewrite Hc in He, Hes.
  assert (∀ σ', same_entries_outside [] σ σ' → _clients σ' = _clients σ) as Heq.
  { intros σ' H. apply map_eq. intros k. apply H, not_elem_of_nil. }
  split; [by eapply registry_is_live_kept; eauto|].
  apply Forall_forall. intros σ' Hσ'. rewrite Forall_forall in Hes, Hos.
  eapply registry_is_live_kept; eauto.
Qed.

Lemma live_step w c σ :
  registry_is_live σ →
  registry_is_live (step w c σ).1 ∧ Forall registry_is_live (step w c σ).2.
Proof.
  intros Hσ. destruct c.
  1: by apply (live_setter w k).
  1: { cbn [step effect fst snd]. unfold setup_clients.
       apply preserves_bind; [apply (live_setter w neutron) | intros _ | done].
       apply preserves_bind; [apply (live_setter w kubernetes) | intros _].
       apply (live_setter w openstacksdk). }
  all: by apply live_outside.
Qed.

Lemma registry_is_live_initial : registry_is_live initial.
Proof. split; [done|]. intros kd l H. done. Qed.

Lemma live_program cs σ : registry_is_live σ → Forall registry_is_live (states cs σ).
Proof.
  revert σ. induction cs as [|[w c] cs IH]; intros σ Hσ; cbn; [by constructor|].
  destruct (live_step w c σ Hσ) as [Hfin Htr].
  constructor; [done|]. apply Forall_app. split; [done | by apply IH].
Qed.

(** The state a program ends in is one of those it can be observed in. *)
Lemma run_in_states cs σ : run cs σ ∈ states cs σ.
Proof.
  revert σ. induction cs as [|[w c] cs IH]; intros σ; cbn.
  - apply list_elem_of_singleton. reflexivity.
  - apply elem_of_cons. right. apply elem_of_app. right. apply IH.
Qed.

(** ** The legacy accessor *)

(** C9, as the code has it: every call of [get_neutron_client] emits the
    deprecation warning first and then returns the entry of the legacy
    key [neutron-client], the client [setup_neutron_client] registered,
    or fails with the [KeyError] of that key; it changes nothing else.
    That entry is not the one [get_network_client] reads: in every state
    a program of calls ends in, when both accessors return, the legacy
    one returns a neutron client and the primary one a network proxy that
    carries the patch layer, two different objects. *)
Theorem legacy_accessor_warns_then_reads_its_own_entry (σ : state) :
  warnings (final (get_neutron_client σ)) = warnings σ ++ ["get_neutron_client"]
  ∧ trace (get_neutron_client σ) = [final (get_neutron_client σ)]
  ∧ reads_only σ (final (get_neutron_client σ))
  ∧ result (get_neutron_client σ) = entry σ _NEUTRON_CLIENT
  ∧ (∀ w, ext_fail w utils_get_neutron_client = None →
       result (setup_neutron_client w σ) = Ok ()
       ∧ heap (final (setup_neutron_client w σ)) !! length (heap σ) = Some NeutronClient
       ∧ result (get_neutron_client (final (setup_neutron_client w σ)))
         = Ok (length (heap σ)))
  ∧ (∀ cs l l',
       result (get_neutron_client (run cs initial)) = Ok l →
       result (get_network_client (run cs initial)) = Ok l' →
       l ≠ l'
       ∧ heap (run cs initial) !! l = Some NeutronClient
       ∧ carries_patch_layer (run cs initial) l').
Proof.
  split; [|split; [|split; [|split; [|split]]]].
  1-4: unfold get_neutron_client, removals_remove, warn;
       rewrite bind_modify, run_clients_item; by cbn.
  - intros w Hw. rewrite run_setup_neutron_client, Hw. cbn [result final].
    split; [done|]. split.
    + cbn. by rewrite list_lookup_middle.
    + rewrite (result_getter neutron). unfold entry. cbn. by rewrite lookup_insert_eq.
  - intros cs l l' Hl Hl'.
    pose proof (run_in_states cs initial) as Hin.
    pose proof (live_program cs initial registry_is_live_initial) as Hlive.
    pose proof (patched_program cs initial published_patched_initial) as Hpatched.
    rewrite Forall_forall in Hlive, Hpatched.
    destruct (Hlive _ Hin) as [_ Hlive'].
    pose proof (published_patched_network _ l' (Hpatched _ Hin) Hl') as Hcarries.
    rewrite (result_getter neutron) in Hl. unfold entry in Hl. cbn [key] in Hl.
    destruct (_clients (run cs initial) !! _NEUTRON_CLIENT) as [l0|] eqn:Hentry; [|done].
    injection Hl as ->.
    destruct (Hlive' neutron l Hentry) as (o & Ho & Hinst).
    destruct o; try done.
    split; [|done]. intros ->. destruct Hcarries as (attrs & Hproxy & _). congruence.
Qed.

Lemma legacy_accessor_warns_then_reads_its_own_entry_witness :
  result (setup_neutron_client pod_world initial) = Ok ()
  ∧ result (get_neutron_client (final (setup_neutron_client pod_world initial))) = Ok 0%nat
  ∧ 0%nat ≠ 2%nat
  ∧ carries_patch_layer (run [(pod_world, setup_all)] initial) 2%nat.
Proof.
  destruct (legacy_accessor_warns_then_reads_its_own_entry initial)
    as (_ & _ & _ & _ & Hsetup & Hdiff).
  destruct (Hsetup pod_world eq_refl) as (H1 & _ & H3).
  destruct (Hdiff [(pod_world, setup_all)] 0%nat 2%nat eq_refl eq_refl) as (H4 & _ & H6).
  split; [exact H1|]. split; [exact H3|]. split; [exact H4 | exact H6].
Defined.

(** C9, as the claim has it, fails: after [setup_clients] the legacy
    accessor returns the neutron client, and the primary accessor the
    network proxy of the connection, a different object. *)
Lemma legacy_accessor_is_not_the_network_accessor :
  result (get_neutron_client after_setup_clients) = Ok 0%nat
  ∧ result (get_network_client after_setup_clients) = Ok 2%nat
  ∧ heap after_setup_clients !! 0%nat = Some NeutronClient
  ∧ result (get_neutron_client after_setup_clients)
    ≠ result (get_network_client after_setup_clients).
Proof. repeat split; try by vm_compute. Qed.

(** ** The error translator *)

Lemma in_strings_elem_of (t : string) (l : list string) :
  in_strings (JStr t) l = true ↔ t ∈ l.
Proof.
  unfold in_strings. induction l as [|s l IH]; cbn.
  - split; [done | by intros ?%elem_of_nil].
  - by rewrite orb_true_iff, IH, elem_of_cons, bool_decide_eq_true.
Qed.

(** C7: a result that is a dict with an error envelope whose type is one
    of [RouterNotFound], [RouterInterfaceNotFoundForSubnet] and
    [SubnetNotFound] makes the translator raise [NotFoundException] with
    the envelope's message; any other type makes it raise [SDKException]
    whose message is the type, [": "] and the message; a result in which
    ["NeutronError"] is not found is returned as it is.  The state is the
    one the method left. *)
Theorem error_translator {A} (method : A → M json) (args : A)
    (σ σ' : state) (tr : list state) (r : json) :
  method args σ = Outcome (Ok r) σ' tr →
  (∀ d env ty msg,
     r = JObj d →
     dict_get "NeutronError" d = Some (JObj env) →
     dict_get "type" env = Some (JStr ty) →
     dict_get "message" env = Some msg →
     (ty ∈ not_found_types →
      handle_neutron_errors method args σ
      = Outcome (Raise (Exn NotFoundException (Some msg) None)) σ' tr)
     ∧ (ty ∉ not_found_types → ∀ m, msg = JStr m →
        handle_neutron_errors method args σ
        = Outcome (Raise (Exn SDKException (Some (JStr (ty +:+ ": " +:+ m))) None)) σ' tr))
  ∧ (json_contains "NeutronError" r = Ok false →
     handle_neutron_errors method args σ = Outcome (Ok r) σ' tr).
Proof.
  intros Hm. unfold handle_neutron_errors. rewrite (run_bind_ok _ _ _ _ _ _ Hm). split.
  - intros d env ty msg -> Henv Hty Hmsg. cbn [json_contains json_subscript].
    rewrite Henv. rewrite bool_decide_eq_true_2 by eauto.
    cbn [lift]. rewrite !bind_mret. cbn [json_subscript]. rewrite Hty.
    cbn [lift]. rewrite !bind_mret. split.
    + intros Hin%in_strings_elem_of. rewrite Hin, Hmsg. cbn [lift].
      rewrite bind_mret. unfold raise, prepend. cbn. by rewrite app_nil_r.
    + intros Hout m ->.
      destruct (in_strings (JStr ty) not_found_types) eqn:E;
        [by apply in_strings_elem_of in E|].
      rewrite bind_mret. cbn [add_str lift].
      rewrite bind_mret, Hmsg. cbn [lift]. rewrite bind_mret. cbn [add_str lift].
      rewrite bind_mret. unfold raise, prepend. cbn. by rewrite app_nil_r, string_app_assoc.
  - intros ->. cbn [lift]. rewrite bind_mret. unfold prepend. cbn. by rewrite app_nil_r.
Qed.

Lemma error_translator_witness :
  handle_neutron_errors (returns (envelope "SubnetNotFound" "m")) () initial
  = Outcome (Raise (Exn NotFoundException (Some (JStr "m")) None)) initial []
  ∧ handle_neutron_errors (returns (envelope "Other" "m")) () initial
    = Outcome (Raise (Exn SDKException (Some (JStr "Other: m")) None)) initial []
  ∧ handle_neutron_errors (returns (JObj [("id", JStr "r1")])) () initial
    = Outcome (Ok (JObj [("id", JStr "r1")])) initial [].
Proof.
  split; [|split].
  - refine (proj1 (proj1 (error_translator (returns (envelope "SubnetNotFound" "m")) ()
              initial initial [] _ eq_refl) _ _ "SubnetNotFound" (JStr "m")
              eq_refl eq_refl eq_refl eq_refl) _).
    apply elem_of_cons. right. apply elem_of_cons. right. apply list_elem_of_singleton.
    reflexivity.
  - refine (proj2 (proj1 (error_translator (returns (envelope "Other" "m")) ()
              initial initial [] _ eq_refl) _ _ "Other" (JStr "m")
              eq_refl eq_refl eq_refl eq_refl) _ "m" eq_refl).
    intros H. apply in_strings_elem_of in H. discriminate H.
  - exact (proj2 (error_translator (returns (JObj [("id", JStr "r1")])) ()
              initial initial [] _ eq_refl) eq_refl).
Defined.

(** ** Bulk port creation *)

Lemma run_send w r σ :
  send w r σ = Outcome (http w r) (with_request σ r) [with_request σ r].
Proof. unfold send. rewrite bind_modify. by destruct (http w r). Qed.

Lemma run_create_ports_failure w self payload σ resp :
  http w (Request POST Port_base_path payload) = Ok resp →
  ok resp = false →
  _create_ports w self payload σ
  = Outcome
      (Raise (Exn SDKException (Some (JStr "Error when bulk creating ports: %s"))
                (Some (JStr (text resp)))))
      (with_request σ (Request POST Port_base_path payload))
      [with_request σ (Request POST Port_base_path payload)].
Proof.
  intros Hresp Hok. unfold _create_ports.
  erewrite run_bind_ok by (rewrite run_send, Hresp; reflexivity).
  by rewrite Hok.
Qed.

(** C4, on the code: a failed response makes [_create_ports] raise an
    [SDKException] whose message is the format string, left as it is, the
    body of the response being the second argument, the [extra_data]; with
    the body [boom] the message does not contain it. *)
Theorem create_ports_failure_message_is_the_format_string :
  (∀ w self payload σ resp,
     http w (Request POST Port_base_path payload) = Ok resp →
     ok resp = false →
     result (_create_ports w self payload σ)
     = Raise (Exn SDKException (Some (JStr "Error when bulk creating ports: %s"))
                (Some (JStr (text resp)))))
  ∧ result (_create_ports failing_world 0%nat (JObj []) initial)
    = Raise (Exn SDKException (Some (JStr "Error when bulk creating ports: %s"))
               (Some (JStr "boom")))
  ∧ message_contains "boom"
      (Exn SDKException (Some (JStr "Error when bulk creating ports: %s"))
         (Some (JStr "boom"))) = false.
Proof.
  split; [|split; reflexivity].
  intros w self payload σ resp Hresp Hok. by erewrite run_create_ports_failure.
Qed.

Lemma run_create_ports w self payload σ resp body ports items :
  http w (Request POST Port_base_path payload) = Ok resp →
  ok resp = true →
  json_body resp = Ok body →
  json_subscript body "ports" = Ok ports →
  json_iter ports = Ok items →
  _create_ports w self payload σ
  = Outcome (Ok (length (heap σ)))
      (with_heap (with_request σ (Request POST Port_base_path payload))
         (heap σ ++ [Generator items]))
      [with_request σ (Request POST Port_base_path payload);
       with_heap (with_request σ (Request POST Port_base_path payload))
         (heap σ ++ [Generator items])].
Proof.
  intros Hresp Hok Hbody Hports Hitems. unfold _create_ports.
  erewrite run_bind_ok by (rewrite run_send, Hresp; reflexivity).
  rewrite Hok, Hbody. cbn [negb lift]. rewrite bind_mret, Hports. cbn [lift].
  rewrite bind_mret, Hitems. cbn [lift]. rewrite bind_mret. reflexivity.
Qed.

Lemma port_call_plain w item : plain item = true → port_call w (JObj item) = Ok item.
Proof.
  unfold plain, port_call, binds. cbn [keyword_arguments existsb].
  destruct (bool_decide (is_Some (dict_get "self" item)));
    destruct (bool_decide (is_Some (dict_get "_synchronized" item)));
    destruct (bool_decide (is_Some (dict_get "connection" item))); done.
Qed.

Lemma run_next_item w g item rest σ :
  heap σ !! g = Some (Generator (JObj item :: rest)) →
  plain item = true →
  next w g σ
  = Outcome (Ok (length (heap σ)))
      (with_heap σ (<[g := Generator rest]> (heap σ) ++ [Port item]))
      [with_heap σ (<[g := Generator rest]> (heap σ));
       with_heap σ (<[g := Generator rest]> (heap σ) ++ [Port item])].
Proof. intros Hg Hp. by rewrite run_next, Hg, port_call_plain. Qed.

Lemma run_next_exhausted w g σ :
  heap σ !! g = Some (Generator []) →
  next w g σ = Outcome (Raise (Exn StopIteration None None)) σ [].
Proof. intros Hg. by rewrite run_next, Hg. Qed.

Lemma result_bind {A B} (m : M A) (f : A → M B) σ :
  result ((m ≫= f) σ)
  = match result (m σ) with
    | Ok a => result (f a (final (m σ)))
    | Raise e => Raise e
    end.
Proof. unfold mbind, M_bind. by destruct (result (m σ)). Qed.

Lemma final_bind {A B} (m : M A) (f : A → M B) σ :
  final ((m ≫= f) σ)
  = match result (m σ) with
    | Ok a => final (f a (final (m σ)))
    | Raise e => final (m σ)
    end.
Proof. unfold mbind, M_bind. by destruct (result (m σ)). Qed.







(** ** The sub-ports of a trunk *)

Example urljoin_add_subports :
  urljoin [Some "/trunks"; Some "t1"; Some "add_subports"] = "trunks/t1/add_subports".
Proof. reflexivity. Qed.

Lemma run_get_resource_Trunk σ trunk t id attrs σ0 :
  resolved σ trunk = Some (t, id, attrs, σ0) →
  heap σ0 !! t = Some (Trunk id attrs)
  ∧ requests σ0 = requests σ
  ∧ ∃ tr, _get_resource_Trunk trunk σ = Outcome (Ok t) σ0 tr.
Proof.
  destruct trunk as [i|l]; cbn.
  - intros [= <- <- <- <-]. split; [by apply list_lookup_middle|]. split; [done|].
    by eexists.
  - destruct (heap σ !! l) as [[]|] eqn:Hl; try done. intros [= <- <- <- <-].
    split; [done|]. split; [done|]. rewrite bind_load, Hl. by eexists.
Qed.

Lemma run_trunk_id σ t id attrs :
  heap σ !! t = Some (Trunk id attrs) → trunk_id t σ = Outcome (Ok id) σ [].
Proof. intros H. unfold trunk_id. by rewrite bind_load, H. Qed.

Lemma run_update_attributes σ t id attrs k v :
  heap σ !! t = Some (Trunk id attrs) →
  update_attributes t k v σ
  = Outcome (Ok ()) (with_heap σ (<[t := Trunk id (<[k := v]> attrs)]> (heap σ)))
      [with_heap σ (<[t := Trunk id (<[k := v]> attrs)]> (heap σ))].
Proof. intros H. unfold update_attributes. by rewrite bind_load, H. Qed.

Lemma run_raise_from_response resp σ :
  raise_from_response resp σ
  = if status_code resp <? 400 then Outcome (Ok ()) σ []
    else Outcome
           (Raise (Exn (if decide (status_code resp = 400) then BadRequestException
                        else if decide (status_code resp = 403) then ForbiddenException
                        else if decide (status_code resp = 404) then NotFoundException
                        else if decide (status_code resp = 409) then ConflictException
                        else if decide (status_code resp = 412)
                             then PreconditionFailedException
                        else HttpException) None None)) σ [].
Proof. unfold raise_from_response. by destruct (_ <? _). Qed.

Lemma run_subports_op add w self trunk subports σ t id attrs σ0 resp :
  resolved σ trunk = Some (t, id, attrs, σ0) →
  http w (subports_request add id subports) = Ok resp →
  ∃ tr,
    subports_op add w self trunk subports σ
    = prepend tr
        (prepend [with_request σ0 (subports_request add id subports)]
           ((raise_from_response resp ≫= λ _,
             update_attributes t "sub_ports" subports ≫= λ _, mret t)
              (with_request σ0 (subports_request add id subports)))).
Proof.
  intros Hres Hresp.
  destruct (run_get_resource_Trunk _ _ _ _ _ _ Hres) as (Ht & _ & tr & Hrun).
  exists tr.
  destruct add; unfold subports_op, _add_trunk_subports, _delete_trunk_subports.
  all: rewrite (run_bind_ok _ _ _ _ _ _ Hrun).
  all: erewrite run_bind_ok by (by eapply run_trunk_id).
  all: rewrite prepend_nil.
  all: erewrite run_bind_ok by (rewrite run_send; unfold subports_request in Hresp;
                                 cbn [subports_action] in Hresp; rewrite Hresp; reflexivity).
  all: reflexivity.
Qed.

(** C6, as the code has it: adding and removing sub-ports send one [PUT]
    and nothing else.  On a 404 response they raise [NotFoundException];
    on any other response from 400 up they raise another exception of the
    [SDKException] family; in both cases the trunk is left as it was.  On
    every response below 400, the 2xx responses and also the 1xx and 3xx
    ones, they write the submitted list into the trunk's cached
    [sub_ports] attribute and return the trunk. *)
Theorem trunk_subports_mutation
    (add : bool) (w : World) (self : loc) (trunk : trunk_ref) (subports : json)
    (σ σ0 : state) (t : loc) (id : option string) (attrs : gmap string json)
    (resp : Response) :
  resolved σ trunk = Some (t, id, attrs, σ0) →
  http w (subports_request add id subports) = Ok resp →
  requests (final (subports_op add w self trunk subports σ))
  = requests σ ++ [subports_request add id subports]
  ∧ (status_code resp = 404 →
     ∃ e, result (subports_op add w self trunk subports σ) = Raise e
          ∧ exc_type e = NotFoundException
          ∧ heap (final (subports_op add w self trunk subports σ)) = heap σ0)
  ∧ (400 ≤ status_code resp → status_code resp ≠ 404 →
     ∃ e, result (subports_op add w self trunk subports σ) = Raise e
          ∧ exc_type e ≠ NotFoundException
          ∧ issubclass (exc_type e) SDKException = true
          ∧ heap (final (subports_op add w self trunk subports σ)) = heap σ0)
  ∧ (status_code resp < 400 →
     result (subports_op add w self trunk subports σ) = Ok t
     ∧ heap (final (subports_op add w self trunk subports σ))
       = <[t := Trunk id (<["sub_ports" := subports]> attrs)]> (heap σ0))
  ∧ (200 ≤ status_code resp < 300 →
     result (subports_op add w self trunk subports σ) = Ok t
     ∧ heap (final (subports_op add w self trunk subports σ)) !! t
       = Some (Trunk id (<["sub_ports" := subports]> attrs))).
Proof.
  intros Hres Hresp.
  destruct (run_get_resource_Trunk _ _ _ _ _ _ Hres) as (Ht & Hreq & _).
  destruct (run_subports_op add w self trunk subports σ t id attrs σ0 resp Hres Hresp)
    as [tr ->].
  set (σ1 := with_request σ0 _).
  assert (heap σ1 !! t = Some (Trunk id attrs)) as Ht1 by done.
  assert (status_code resp < 400 →
          (raise_from_response resp ≫= λ _,
           update_attributes t "sub_ports" subports ≫= λ _, mret t) σ1
          = Outcome (Ok t)
              (with_heap σ1 (<[t := Trunk id (<["sub_ports" := subports]> attrs)]> (heap σ1)))
              [with_heap σ1 (<[t := Trunk id (<["sub_ports" := subports]> attrs)]> (heap σ1))])
    as Hsuccess.
  { intros Hlt. erewrite run_bind_ok
      by (rewrite run_raise_from_response; apply Z.ltb_lt in Hlt; rewrite Hlt; reflexivity).
    rewrite prepend_nil.
    erewrite run_bind_ok by (by eapply run_update_attributes). reflexivity. }
  assert (400 ≤ status_code resp →
          ∃ e, (raise_from_response resp ≫= λ _,
                update_attributes t "sub_ports" subports ≫= λ _, mret t) σ1
               = Outcome (Raise e) σ1 []
               ∧ (status_code resp = 404 → exc_type e = NotFoundException)
               ∧ (status_code resp ≠ 404 → exc_type e ≠ NotFoundException)
               ∧ issubclass (exc_type e) SDKException = true)
    as Hfailure.
  { intros Hge. eexists. split.
    - apply run_bind_raise. rewrite run_raise_from_response.
      apply Z.ltb_ge in Hge. rewrite Hge. reflexivity.
    - cbn [exc_type]. repeat case_decide; try lia; repeat split; try done; lia. }
  split; [|split; [|split; [|split]]].
  - destruct (Z.lt_ge_cases (status_code resp) 400) as [Hlt|Hge].
    + rewrite (Hsuccess Hlt). cbn. by rewrite Hreq.
    + destruct (Hfailure Hge) as (e & -> & _). cbn. by rewrite Hreq.
  - intros H404. destruct (Hfailure ltac:(lia)) as (e & -> & He & _).
    exists e. cbn. auto.
  - intros Hge Hne. destruct (Hfailure Hge) as (e & -> & _ & He & Hsub).
    exists e. cbn. auto.
  - intros Hlt. rewrite (Hsuccess Hlt). cbn. done.
  - intros [_ Hlt]. rewrite (Hsuccess ltac:(lia)). cbn. split; [done|].
    apply list_lookup_insert_eq. by eapply lookup_lt_Some.
Qed.

Lemma trunk_subports_mutation_witness :
  (∃ e, result (_add_trunk_subports (status_world 404) 0%nat (TrunkId "t1") (JArr []) initial)
        = Raise e
        ∧ exc_type e = NotFoundException)
  ∧ (∃ e, result (_delete_trunk_subports (status_world 500) 0%nat (TrunkId "t1") (JArr [])
                    initial) = Raise e
          ∧ exc_type e ≠ NotFoundException
          ∧ issubclass (exc_type e) SDKException = true)
  ∧ result (_delete_trunk_subports (status_world 200) 0%nat (TrunkId "t1")
              (JArr [JObj [("port_id", JStr "p")]]) initial) = Ok 0%nat
  ∧ result (_add_trunk_subports (status_world 399) 0%nat (TrunkId "t1") (JArr []) initial)
    = Ok 0%nat.
Proof.
  split; [|split; [|split]].
  - destruct (proj1 (proj2 (trunk_subports_mutation true (status_world 404) 0%nat
                (TrunkId "t1") (JArr []) initial _ _ _ _ _ eq_refl eq_refl)) eq_refl)
      as (e & He & Hty & _).
    exists e. split; [exact He | exact Hty].
  - destruct (proj1 (proj2 (proj2 (trunk_subports_mutation false (status_world 500) 0%nat
                (TrunkId "t1") (JArr []) initial _ _ _ _ _ eq_refl eq_refl))))
      as (e & He & Hty & Hsub & _).
    { cbn. lia. }
    { cbn. lia. }
    exists e. split; [exact He|]. split; [exact Hty | exact Hsub].
  - refine (proj1 (proj2 (proj2 (proj2 (proj2 (trunk_subports_mutation false
              (status_world 200) 0%nat (TrunkId "t1") (JArr [JObj [("port_id", JStr "p")]])
              initial _ _ _ _ _ eq_refl eq_refl)))) _)).
    cbn. lia.
  - refine (proj1 (proj1 (proj2 (proj2 (proj2 (trunk_subports_mutation true
              (status_world 399) 0%nat (TrunkId "t1") (JArr [])
              initial _ _ _ _ _ eq_refl eq_refl)))) _)).
    cbn. lia.
Defined.

(** C6, as the claim has it, fails: a response that is neither a 2xx
    response nor an error, a redirect here, does not make the operation
    raise; it returns the trunk, whose cached list it has set. *)
Lemma trunk_subports_redirect_is_taken_as_success :
  result (_add_trunk_subports (status_world 300) 0%nat (TrunkId "t1") (JArr [JStr "p1"])
            initial) = Ok 0%nat
  ∧ heap (final (_add_trunk_subports (status_world 300) 0%nat (TrunkId "t1")
                   (JArr [JStr "p1"]) initial)) !! 0%nat
    = Some (Trunk (Some "t1") (<["sub_ports" := JArr [JStr "p1"]]> ∅))
  ∧ requests (final (_add_trunk_subports (status_world 300) 0%nat (TrunkId "t1")
                       (JArr [JStr "p1"]) initial))
    = [Request PUT "trunks/t1/add_subports" (JObj [("sub_ports", JArr [JStr "p1"])])].
Proof. repeat split; by vm_compute. Qed.

(** * Further properties *)

(** ** Factories that fail, and factories run again *)

(** X1: a factory that raises has done nothing: the registry, the heap
    and the logs are those it started with, and it went through no other
    state. *)
Theorem failing_factory_has_no_effect (k : kind) (w : World) (σ : state) (e : exn) :
  result (setter w k σ) = Raise e → setter w k σ = Outcome (Raise e) σ [].
Proof.
  destruct k; cbn [setter].
  - rewrite run_setup_neutron_client. destruct (ext_fail w _); [|done]. by intros [= ->].
  - rewrite run_setup_kubernetes_client. destruct (api_root_rule w); [|by intros [= ->]].
    destruct (ext_fail w _); [|done]. by intros [= ->].
  - rewrite run_setup_openstacksdk. destruct (sdk_failure w); [|done]. by intros [= ->].
  - rewrite run_setup_pod_resources_client. destruct (ext_fail w _); [|done].
    by intros [= ->].
Qed.

Lemma failing_factory_has_no_effect_witness :
  setter portless_world kubernetes initial = Outcome (Raise (key_error PORT)) initial [].
Proof.
  apply (failing_factory_has_no_effect kubernetes portless_world initial (key_error PORT)).
  reflexivity.
Defined.

(** X2: [setup_clients] stops at the first factory that raises and
    undoes nothing: when the neutron factory raises nothing has changed;
    when the Kubernetes factory raises the neutron client stays
    registered; when the SDK factory raises the neutron and Kubernetes
    clients stay registered.  The exception is the factory's own. *)
Theorem setup_clients_stops_at_first_failure (w : World) (σ : state) :
  (∀ e, result (setup_neutron_client w σ) = Raise e →
        setup_clients w σ = Outcome (Raise e) σ [])
  ∧ (∀ e, result (setup_neutron_client w σ) = Ok () →
          result (setup_kubernetes_client w (final (setup_neutron_client w σ))) = Raise e →
          result (setup_clients w σ) = Raise e
          ∧ final (setup_clients w σ) = final (setup_neutron_client w σ)
          ∧ _clients (final (setup_clients w σ))
            = <[_NEUTRON_CLIENT := length (heap σ)]> (_clients σ))
  ∧ (∀ e, result (setup_neutron_client w σ) = Ok () →
          result (setup_kubernetes_client w (final (setup_neutron_client w σ))) = Ok () →
          result (setup_openstacksdk w
                    (final (setup_kubernetes_client w (final (setup_neutron_client w σ)))))
          = Raise e →
          result (setup_clients w σ) = Raise e
          ∧ _clients (final (setup_clients w σ))
            = <[_KUBERNETES_CLIENT := S (length (heap σ))]>
                (<[_NEUTRON_CLIENT := length (heap σ)]> (_clients σ))).
Proof.
  unfold setup_clients. split; [|split].
  - intros e He. apply (setter_raises w neutron) in He.
    cbn [setter] in He. by apply run_bind_raise.
  - intros e Hn Hk. apply (setter_raises w kubernetes) in Hk.
    cbn [setter] in Hk.
    rewrite result_bind, final_bind, Hn, result_bind, final_bind, Hk. cbn [result final].
    split; [done|]. split; [done|].
    rewrite run_setup_neutron_client in *. by destruct (ext_fail w _); cbn in *.
  - intros e Hn Hk Hs.
    rewrite result_bind, final_bind, Hn, result_bind, final_bind, Hk. split; [done|].
    apply (setter_raises w openstacksdk) in Hs. cbn [setter] in Hs.
    rewrite Hs. cbn [final].
    rewrite run_setup_kubernetes_client in *. rewrite run_setup_neutron_client in *.
    destruct (ext_fail w utils_get_neutron_client); cbn in *; [done|].
    destruct (api_root_rule w); cbn in *; [|done].
    destruct (ext_fail w _); cbn in *; [done|].
    by rewrite length_app, Nat.add_1_r.
Qed.

Lemma setup_clients_stops_at_first_failure_witness :
  result (setup_clients portless_world initial) = Raise (key_error PORT)
  ∧ final (setup_clients portless_world initial)
    = final (setup_neutron_client portless_world initial)
  ∧ _clients (final (setup_clients portless_world initial))
    = <[_NEUTRON_CLIENT := 0%nat]> ∅.
Proof.
  apply (proj1 (proj2 (setup_clients_stops_at_first_failure portless_world initial))
           (key_error PORT)); reflexivity.
Defined.

Lemma run_setup_clients_ok w σ :
  result (setup_clients w σ) = Ok () →
  ∃ root,
    api_root_rule w = Ok root
    ∧ final (setup_clients w σ)
      = setup_openstacksdk_final (neutron_region_name (CONF w))
          (with_clients (with_heap σ (heap σ ++ [NeutronClient; K8sClient root]))
             (<[_KUBERNETES_CLIENT := S (length (heap σ))]>
                (<[_NEUTRON_CLIENT := length (heap σ)]> (_clients σ)))).
Proof.
  unfold setup_clients. intros Hok.
  pose proof (run_setup_neutron_client w σ) as Hn.
  destruct (ext_fail w utils_get_neutron_client).
  { by rewrite (run_bind_raise _ _ _ _ _ _ Hn) in Hok. }
  rewrite (run_bind_ok _ _ _ _ _ _ Hn) in Hok |- *. clear Hn.
  set (σ1 := with_clients _ _) in *.
  pose proof (run_setup_kubernetes_client w σ1) as Hk.
  destruct (api_root_rule w) as [root|].
  2: { by rewrite (run_bind_raise _ _ _ _ _ _ Hk) in Hok. }
  destruct (ext_fail w (k8s_client_K8sClient root)).
  { by rewrite (run_bind_raise _ _ _ _ _ _ Hk) in Hok. }
  rewrite (run_bind_ok _ _ _ _ _ _ Hk) in Hok |- *. clear Hk.
  rewrite run_setup_openstacksdk in Hok |- *.
  destruct (sdk_failure w); [done|].
  exists root. split; [done|]. cbn [prepend final result].
  unfold σ1, with_clients, with_heap. cbn. by rewrite length_app, Nat.add_1_r, <- app_assoc.
Qed.

(** X3: once [setup_clients] has returned, the accessors of the neutron
    client, the Kubernetes client, the network client and the connection
    return four different new objects, in the order they were made, and
    the network proxy carries the patch layer; nothing else was made, so
    the connection has no load-balancer and no compute proxy yet, and the
    first call of either of their accessors raises what the construction
    of the proxy raises in the world of the call, or returns a new
    object.  [get_pod_resources_client] does what it did before. *)
Theorem after_setup_clients_every_client_is_there (w : World) (σ : state) :
  result (setup_clients w σ) = Ok () →
  result (get_neutron_client (final (setup_clients w σ))) = Ok (length (heap σ))
  ∧ result (get_kubernetes_client (final (setup_clients w σ))) = Ok (length (heap σ) + 1)%nat
  ∧ result (get_network_client (final (setup_clients w σ))) = Ok (length (heap σ) + 2)%nat
  ∧ result (get_openstacksdk (final (setup_clients w σ))) = Ok (length (heap σ) + 3)%nat
  ∧ carries_patch_layer (final (setup_clients w σ)) (length (heap σ) + 2)
  ∧ length (heap (final (setup_clients w σ))) = (length (heap σ) + 4)%nat
  ∧ (∀ w',
       result (get_loadbalancer_client w' (final (setup_clients w σ)))
       = match ext_fail w' (service_proxy "load-balancer") with
         | Some e => Raise e
         | None => Ok (length (heap σ) + 4)%nat
         end)
  ∧ (∀ w',
       result (get_compute_client w' (final (setup_clients w σ)))
       = match ext_fail w' (service_proxy "compute") with
         | Some e => Raise e
         | None => Ok (length (heap σ) + 4)%nat
         end)
  ∧ result (get_pod_resources_client (final (setup_clients w σ)))
    = result (get_pod_resources_client σ).
Proof.
  intros Hok. destruct (run_setup_clients_ok w σ Hok) as (root & _ & ->).
  set (σ2 := with_clients _ _).
  assert (length (heap σ2) = (length (heap σ) + 2)%nat) as Hlen.
  { cbn. rewrite length_app. cbn. lia. }
  assert (heap (setup_openstacksdk_final (neutron_region_name (CONF w)) σ2)
          !! (length (heap σ) + 3)%nat
          = Some (Connection (neutron_region_name (CONF w)) (length (heap σ) + 2)
                    None None)) as Hconn.
  { change (heap (setup_openstacksdk_final (neutron_region_name (CONF w)) σ2))
      with (sdk_heap (heap σ2) (neutron_region_name (CONF w)) (patched (length (heap σ2)) 3)).
    replace (length (heap σ) + 3)%nat with (sdk_conn (heap σ2)) by (unfold sdk_conn; lia).
    rewrite sdk_heap_conn. f_equal. f_equal. lia. }
  assert (length (heap (setup_openstacksdk_final (neutron_region_name (CONF w)) σ2))
          = (length (heap σ) + 4)%nat) as Hlen'.
  { change (heap (setup_openstacksdk_final (neutron_region_name (CONF w)) σ2))
      with (sdk_heap (heap σ2) (neutron_region_name (CONF w)) (patched (length (heap σ2)) 3)).
    unfold sdk_heap. rewrite length_app, Hlen. cbn. lia. }
  assert (entry (setup_openstacksdk_final (neutron_region_name (CONF w)) σ2) _NEUTRON_CLIENT
          = Ok (length (heap σ))
          ∧ entry (setup_openstacksdk_final (neutron_region_name (CONF w)) σ2)
              _KUBERNETES_CLIENT = Ok (length (heap σ) + 1)%nat
          ∧ entry (setup_openstacksdk_final (neutron_region_name (CONF w)) σ2) _OPENSTACKSDK
            = Ok (length (heap σ) + 3)%nat
          ∧ entry (setup_openstacksdk_final (neutron_region_name (CONF w)) σ2)
              _POD_RESOURCES_CLIENT = entry σ _POD_RESOURCES_CLIENT)
    as (Hen & Hek & Hes & Hep).
  { unfold entry, setup_openstacksdk_final, sdk_conn.
    cbn [_clients with_clients]. rewrite Hlen. unfold σ2. cbn [_clients with_clients].
    unfold _OPENSTACKSDK, _KUBERNETES_CLIENT, _NEUTRON_CLIENT, _POD_RESOURCES_CLIENT.
    repeat split.
    all: rewrite ?lookup_insert_ne by done; rewrite ?lookup_insert_eq; try done.
    all: f_equal; lia. }
  rewrite (result_getter neutron), (result_getter kubernetes), (result_getter openstacksdk),
    (result_getter pod_resources), (result_getter pod_resources),
    result_get_network_client.
  cbn [key]. rewrite Hen, Hek, Hes, Hep.
  erewrite run_attr_network by exact Hconn.
  do 4 (split; [done|]). split; [|split; [done|]].
  { replace (length (heap σ) + 2)%nat with (length (heap σ2)) by done.
    apply (carries_patched (heap σ2)). }
  split; [|split; [|done]].
  - intros w'. rewrite result_get_loadbalancer_client, Hes, run_attr_load_balancer, Hconn.
    destruct (ext_fail w' _); [done|]. cbn [result]. by rewrite Hlen'.
  - intros w'. rewrite result_get_compute_client, Hes, run_attr_compute, Hconn.
    destruct (ext_fail w' _); [done|]. cbn [result]. by rewrite Hlen'.
Qed.

Lemma after_setup_clients_every_client_is_there_witness :
  result (get_network_client (final (setup_clients pod_world initial))) = Ok 2%nat
  ∧ result (get_compute_client pod_world (final (setup_clients pod_world initial)))
    = Ok 4%nat.
Proof.
  pose proof (after_setup_clients_every_client_is_there pod_world initial eq_refl)
    as (_ & _ & H & _ & _ & _ & _ & H' & _).
  split; [exact H | exact (H' pod_world)].
Defined.

(** X4: running a factory again replaces the entry of its key by a new
    object; the accessor then returns the new one, and the object the
    first run registered is still there, as it was, for whoever holds
    it. *)
Theorem second_setup_replaces_the_entry (k : kind) (w w' : World) (σ : state) :
  result (setter w k σ) = Ok () →
  result (setter w' k (final (setter w k σ))) = Ok () →
  ∃ l1 l2 o1,
    result (getter k (final (setter w k σ))) = Ok l1
    ∧ result (getter k (final (setter w' k (final (setter w k σ))))) = Ok l2
    ∧ l1 ≠ l2
    ∧ heap (final (setter w k σ)) !! l1 = Some o1
    ∧ heap (final (setter w' k (final (setter w k σ)))) !! l1 = Some o1.
Proof.
  intros H1 H2.
  destruct (setter_ok w k σ H1) as (l1 & o1 & _ & Hl1 & _ & Hk1).
  destruct (setter_ok w' k _ H2) as (l2 & o2 & Hnew & _ & _ & Hk2).
  exists l1, l2, o1. rewrite !result_getter. unfold entry. rewrite Hk1, Hk2.
  repeat split; try done.
  - intros ->. congruence.
  - by apply (objects_setter w' k).
Qed.

Lemma second_setup_replaces_the_entry_witness :
  ∃ l1 l2 o1,
    result (getter kubernetes (final (setter pod_world kubernetes initial))) = Ok l1
    ∧ result (getter kubernetes
                (final (setter ipv4_pod_world kubernetes
                          (final (setter pod_world kubernetes initial))))) = Ok l2
    ∧ l1 ≠ l2
    ∧ heap (final (setter pod_world kubernetes initial)) !! l1 = Some o1
    ∧ heap (final (setter ipv4_pod_world kubernetes
                     (final (setter pod_world kubernetes initial)))) !! l1 = Some o1.
Proof.
  apply (second_setup_replaces_the_entry kubernetes pod_world ipv4_pod_world initial);
    reflexivity.
Defined.

Lemma patched_lookup n name a :
  patched n 3 !! name = Some a ↔ (name, a) ∈ patch_layer_of n.
Proof.
  unfold patched, patch_layer_of. rewrite !elem_of_cons, elem_of_nil.
  destruct (decide (name = "delete_trunk_subports")) as [->|].
  { rewrite lookup_insert_eq. split; [intros [= <-]; auto|].
    intros [[= _]|[[= _]|[[= <-]|[]]]]; done. }
  rewrite lookup_insert_ne by done.
  destruct (decide (name = "add_trunk_subports")) as [->|].
  { rewrite lookup_insert_eq. split; [intros [= <-]; auto|].
    intros [[= _]|[[= <-]|[[= _]|[]]]]; done. }
  rewrite lookup_insert_ne by done.
  destruct (decide (name = "create_ports")) as [->|].
  { rewrite lookup_insert_eq. split; [intros [= <-]; auto|].
    intros [[= <-]|[[= _]|[[= _]|[]]]]; done. }
  rewrite lookup_insert_ne by done. rewrite lookup_empty.
  split; [done|]. intros [[= ? _]|[[= ? _]|[[= ? _]|[]]]]; done.
Qed.

(** X5: the connection [setup_openstacksdk] registers was made for the
    configured [neutron.region_name]; its network proxy has the three
    operations of the patch layer, each a [partial] on that proxy, and no
    other attribute; it has no load-balancer and no compute proxy yet, and
    the proxy that the accessor of either builds later is another object
    than the network proxy and is given no attribute. *)
Theorem setup_openstacksdk_patches_the_network_proxy_only (w : World) (σ : state) :
  result (setup_openstacksdk w σ) = Ok () →
  ∃ c n attrs,
    result (get_openstacksdk (final (setup_openstacksdk w σ))) = Ok c
    ∧ heap (final (setup_openstacksdk w σ)) !! c
      = Some (Connection (neutron_region_name (CONF w)) n None None)
    ∧ heap (final (setup_openstacksdk w σ)) !! n = Some (Proxy attrs)
    ∧ (∀ name a, attrs !! name = Some a ↔ (name, a) ∈ patch_layer_of n)
    ∧ (∀ w' lb,
         result (get_loadbalancer_client w' (final (setup_openstacksdk w σ))) = Ok lb →
         lb ≠ n
         ∧ heap (final (get_loadbalancer_client w' (final (setup_openstacksdk w σ)))) !! lb
           = Some (Proxy ∅))
    ∧ (∀ w' cp,
         result (get_compute_client w' (final (setup_openstacksdk w σ))) = Ok cp →
         cp ≠ n
         ∧ heap (final (get_compute_client w' (final (setup_openstacksdk w σ)))) !! cp
           = Some (Proxy ∅)).
Proof.
  rewrite run_setup_openstacksdk. destruct (sdk_failure w); [done|]. intros _.
  cbn [final]. exists (sdk_conn (heap σ)), (length (heap σ)), (patched (length (heap σ)) 3).
  set (σ1 := setup_openstacksdk_final (neutron_region_name (CONF w)) σ).
  assert (entry σ1 _OPENSTACKSDK = Ok (sdk_conn (heap σ))) as Hentry.
  { unfold entry, σ1, setup_openstacksdk_final. cbn [_clients with_clients].
    by rewrite lookup_insert_eq. }
  assert (heap σ1 !! sdk_conn (heap σ)
          = Some (Connection (neutron_region_name (CONF w)) (length (heap σ)) None None))
    as Hconn by apply sdk_heap_conn.
  assert (length (heap σ1) = (length (heap σ) + 2)%nat) as Hlen.
  { unfold σ1, setup_openstacksdk_final, sdk_heap. cbn [heap with_clients with_heap].
    rewrite length_app. cbn. lia. }
  assert (∀ o : obj,
            <[sdk_conn (heap σ) := o]> (heap σ1 ++ [Proxy ∅]) !! length (heap σ1)
            = Some (Proxy ∅)) as Hnew.
  { intros o. rewrite list_lookup_insert_ne by (unfold sdk_conn; lia).
    by apply list_lookup_middle. }
  rewrite (result_getter openstacksdk). cbn [key].
  split; [done|]. split; [done|]. split; [apply sdk_heap_network|].
  split; [apply patched_lookup|]. split.
  - intros w' lb. rewrite result_get_loadbalancer_client, Hentry.
    unfold get_loadbalancer_client, get_openstacksdk.
    erewrite run_bind_ok by (rewrite run_clients_item, Hentry; reflexivity).
    rewrite prepend_nil, run_attr_load_balancer, Hconn.
    destruct (ext_fail w' _); [done|]. cbn [result final]. intros Heq.
    assert (lb = length (heap σ1)) as -> by (by injection Heq).
    split; [lia|]. rewrite with_heap_heap. apply Hnew.
  - intros w' cp. rewrite result_get_compute_client, Hentry.
    unfold get_compute_client.
    erewrite run_bind_ok by (rewrite run_clients_item, Hentry; reflexivity).
    rewrite prepend_nil, run_attr_compute, Hconn.
    destruct (ext_fail w' _); [done|]. cbn [result final]. intros Heq.
    assert (cp = length (heap σ1)) as -> by (by injection Heq).
    split; [lia|]. rewrite with_heap_heap. apply Hnew.
Qed.

Lemma setup_openstacksdk_patches_the_network_proxy_only_witness :
  ∃ c n attrs,
    result (get_openstacksdk (final (setup_openstacksdk pod_world initial))) = Ok c
    ∧ heap (final (setup_openstacksdk pod_world initial)) !! c
      = Some (Connection (neutron_region_name (CONF pod_world)) n None None)
    ∧ heap (final (setup_openstacksdk pod_world initial)) !! n = Some (Proxy attrs)
    ∧ (∀ name a, attrs !! name = Some a ↔ (name, a) ∈ patch_layer_of n)
    ∧ (∀ w' lb,
         result (get_loadbalancer_client w' (final (setup_openstacksdk pod_world initial)))
         = Ok lb →
         lb ≠ n
         ∧ heap (final (get_loadbalancer_client w'
                          (final (setup_openstacksdk pod_world initial)))) !! lb
           = Some (Proxy ∅))
    ∧ (∀ w' cp,
         result (get_compute_client w' (final (setup_openstacksdk pod_world initial)))
         = Ok cp →
         cp ≠ n
         ∧ heap (final (get_compute_client w'
                          (final (setup_openstacksdk pod_world initial)))) !! cp
           = Some (Proxy ∅)).
Proof.
  apply (setup_openstacksdk_patches_the_network_proxy_only pod_world initial). reflexivity.
Defined.

(** ** Hosts that are never put in brackets *)

Lemma length_split sep s : length (str.split sep s) = S (count_char sep s).
Proof.
  induction s as [|c s IH]; [done|]. cbn [str.split count_char].
  case_decide; cbn [length]; [by rewrite IH|].
  destruct (str.split sep s) as [|p ps]; cbn in *; lia.
Qed.

Lemma few_colons_not_ipv6 host :
  (count_char ":" host < 2)%nat → parses_as_ipv6 host = false.
Proof.
  intros H. unfold parses_as_ipv6, ipaddress.IPv6Address.
  destruct (str.contains_char "/" host); [done|]. destruct host as [|c host]; [done|].
  assert ((length (str.split ":" (String c host)) <? 3)%nat = true) as ->; [|done].
  apply Nat.ltb_lt. rewrite length_split. lia.
Qed.

(** X6: with no configured root, a service host with fewer than two
    colons, so every dotted quad and every host name, goes into the URL
    as it is: the root is ["https://"], the host, [":"] and the port. *)
Theorem host_with_fewer_than_two_colons_is_not_bracketed
    (w : World) (σ : state) (host port : string) :
  truthy (kubernetes_api_root (CONF w)) = false →
  environ w !! "KUBERNETES_SERVICE_HOST" = Some host →
  environ w !! "KUBERNETES_SERVICE_PORT_HTTPS" = Some port →
  (count_char ":" host < 2)%nat →
  kubernetes_api_root_of w σ = Outcome (Ok ("https://" +:+ host +:+ ":" +:+ port)) σ [].
Proof.
  intros Hunset Hhost Hport Hcolons.
  rewrite kubernetes_api_root_of_rule. unfold api_root_rule, HOST, PORT.
  by rewrite Hunset, Hhost, Hport, few_colons_not_ipv6.
Qed.

Lemma host_with_fewer_than_two_colons_is_not_bracketed_witness :
  kubernetes_api_root_of ipv4_pod_world initial
  = Outcome (Ok "https://10.96.0.1:443") initial [].
Proof.
  apply (host_with_fewer_than_two_colons_is_not_bracketed ipv4_pod_world initial
           "10.96.0.1" "443" eq_refl eq_refl eq_refl).
  apply Nat.ltb_lt. reflexivity.
Defined.

(** ** Bulk port creation: what surfaces at the call, what at iteration *)

(** X7: on a successful response [_create_ports] reads the body at once:
    a body that is not JSON, a dict without ["ports"], or a ["ports"] that
    cannot be iterated make the call itself raise (the parser's
    exception, [KeyError], [TypeError]); no generator is made. *)
Theorem create_ports_reads_the_body_at_the_call
    (w : World) (self : loc) (payload : json) (σ : state) (resp : Response) :
  http w (Request POST Port_base_path payload) = Ok resp →
  ok resp = true →
  (∀ e, json_body resp = Raise e →
        result (_create_ports w self payload σ) = Raise e
        ∧ heap (final (_create_ports w self payload σ)) = heap σ)
  ∧ (∀ d, json_body resp = Ok (JObj d) → dict_get "ports" d = None →
          result (_create_ports w self payload σ) = Raise (key_error "ports")
          ∧ heap (final (_create_ports w self payload σ)) = heap σ)
  ∧ (∀ d v e, json_body resp = Ok (JObj d) → dict_get "ports" d = Some v →
              json_iter v = Raise e →
              result (_create_ports w self payload σ) = Raise e
              ∧ exc_type e = TypeError
              ∧ heap (final (_create_ports w self payload σ)) = heap σ).
Proof.
  intros Hresp Hok. unfold _create_ports.
  erewrite run_bind_ok by (rewrite run_send, Hresp; reflexivity).
  rewrite Hok. cbn [negb]. split; [|split].
  - intros e ->. cbn [lift]. by rewrite bind_raise.
  - intros d -> Hd. cbn [lift]. rewrite bind_mret. cbn [json_subscript]. rewrite Hd.
    cbn [lift]. by rewrite bind_raise.
  - intros d v e -> Hd Hv. cbn [lift]. rewrite bind_mret. cbn [json_subscript]. rewrite Hd.
    cbn [lift]. rewrite bind_mret, Hv. cbn [lift]. rewrite bind_raise. cbn. split; [done|].
    split; [|done]. by destruct v; simplify_eq/=.
Qed.

Lemma create_ports_reads_the_body_at_the_call_witness :
  result (_create_ports (body_world (JObj [("port", JObj [])])) 0%nat (JObj []) initial)
  = Raise (key_error "ports")
  ∧ heap (final (_create_ports (body_world (JObj [("port", JObj [])])) 0%nat (JObj [])
                   initial)) = [].
Proof.
  exact (proj1 (proj2 (create_ports_reads_the_body_at_the_call
                         (body_world (JObj [("port", JObj [])])) 0%nat (JObj []) initial _
                         eq_refl eq_refl)) _ eq_refl eq_refl).
Defined.

Lemma run_nexts_prefix w g fs tail σ :
  heap σ !! g = Some (Generator ((JObj <$> fs) ++ tail)) →
  Forall (λ f, plain f = true) fs →
  result (nexts w (length fs) g σ) = Ok (seq (length (heap σ)) (length fs))
  ∧ final (nexts w (length fs) g σ)
    = with_heap σ (<[g := Generator tail]> (heap σ) ++ (Port <$> fs)).
Proof.
  revert σ. induction fs as [|f fs IH]; intros σ Hg Hplain.
  { cbn. rewrite app_nil_r, list_insert_id by done. by destruct σ. }
  apply Forall_cons in Hplain as [Hf Hfs].
  pose proof (lookup_lt_Some _ _ _ Hg) as Hlt.
  change ((JObj <$> f :: fs) ++ tail) with (JObj f :: ((JObj <$> fs) ++ tail)) in Hg.
  cbn [nexts length]. rewrite result_bind, final_bind.
  rewrite (run_next_item w g _ _ σ Hg Hf). cbn [result final].
  set (σ1 := with_heap σ (<[g := Generator ((JObj <$> fs) ++ tail)]> (heap σ) ++ [Port f])).
  assert (heap σ1 !! g = Some (Generator ((JObj <$> fs) ++ tail))) as Hg1.
  { cbn. rewrite lookup_app_l by (by rewrite length_insert).
    by rewrite list_lookup_insert_eq. }
  destruct (IH σ1 Hg1 Hfs) as [Hres Hfin].
  rewrite result_bind, final_bind, Hres. cbn [result final mret M_ret].
  split.
  - cbn. by rewrite length_app, length_insert, Nat.add_1_r.
  - rewrite Hfin. unfold σ1, with_heap. cbn. f_equal.
    rewrite insert_app_l by (by rewrite length_insert).
    rewrite list_insert_insert_eq. by rewrite <- app_assoc.
Qed.

Lemma port_call_refused w bad :
  refused bad = true → ∃ e, port_call w bad = Raise e ∧ exc_type e = TypeError.
Proof.
  unfold refused, port_call. destruct bad; cbn [keyword_arguments]; try by eexists.
  intros ->. by eexists.
Qed.

Lemma run_next_refused w g bad rest σ :
  heap σ !! g = Some (Generator (bad :: rest)) →
  refused bad = true →
  ∃ e,
    exc_type e = TypeError
    ∧ next w g σ
      = Outcome (Raise e) (with_heap σ (<[g := Generator []]> (heap σ)))
          [with_heap σ (<[g := Generator rest]> (heap σ));
           with_heap σ (<[g := Generator []]> (heap σ))].
Proof.
  intros Hg Hbad. destruct (port_call_refused w bad Hbad) as (e & He & Hty).
  exists e. split; [done|]. by rewrite run_next, Hg, He.
Qed.

(** X8: an item of ["ports"] the constructor of a port cannot be called
    with, because it is not a dict or because it is a dict with the key
    [self], does not make [_create_ports] fail: the call returns the
    generator, the items before the bad one, dicts of attributes, come out
    as ports, in order; the next [next] raises [TypeError] and ends the
    generator, so the one after raises [StopIteration] and the items
    behind the bad one are never made into ports. *)
Theorem create_ports_item_that_is_not_a_dict
    (w : World) (self : loc) (payload : json) (σ : state) (resp : Response) (body : json)
    (fs : list (list (string * json))) (bad : json) (rest : list json) :
  http w (Request POST Port_base_path payload) = Ok resp →
  ok resp = true →
  json_body resp = Ok body →
  json_subscript body "ports" = Ok (JArr ((JObj <$> fs) ++ bad :: rest)) →
  Forall (λ f, plain f = true) fs →
  refused bad = true →
  ∃ σ1 σ2 σ3 e,
    _create_ports w self payload σ
    = Outcome (Ok (length (heap σ))) σ1
        [with_request σ (Request POST Port_base_path payload); σ1]
    ∧ result (nexts w (length fs) (length (heap σ)) σ1)
      = Ok (seq (S (length (heap σ))) (length fs))
    ∧ final (nexts w (length fs) (length (heap σ)) σ1) = σ2
    ∧ result (next w (length (heap σ)) σ2) = Raise e
    ∧ exc_type e = TypeError
    ∧ final (next w (length (heap σ)) σ2) = σ3
    ∧ heap σ3 = heap σ ++ [Generator []] ++ (Port <$> fs)
    ∧ result (next w (length (heap σ)) σ3) = Raise (Exn StopIteration None None).
Proof.
  intros Hresp Hok Hbody Hports Hplain Hbad.
  rewrite (run_create_ports w self payload σ resp body _ _ Hresp Hok Hbody Hports eq_refl).
  set (σ1 := with_heap _ _).
  assert (heap σ1 !! length (heap σ)
          = Some (Generator ((JObj <$> fs) ++ bad :: rest))) as Hg.
  { unfold σ1. rewrite with_heap_heap. by apply list_lookup_middle. }
  assert (length (heap σ1) = S (length (heap σ))) as Hlen.
  { cbn. rewrite length_app. cbn. lia. }
  destruct (run_nexts_prefix w _ fs (bad :: rest) σ1 Hg Hplain) as [Hres Hfin].
  set (σ2 := with_heap σ1 (<[length (heap σ) := Generator (bad :: rest)]> (heap σ1)
                           ++ (Port <$> fs))) in *.
  assert (heap σ2 !! length (heap σ) = Some (Generator (bad :: rest))) as Hg2.
  { unfold σ2. rewrite with_heap_heap.
    rewrite lookup_app_l by (rewrite length_insert; lia).
    apply list_lookup_insert_eq. lia. }
  destruct (run_next_refused w _ bad rest σ2 Hg2 Hbad) as (e & Hty & Hnext).
  set (σ3 := with_heap σ2 (<[length (heap σ) := Generator []]> (heap σ2))) in *.
  assert (heap σ3 = heap σ ++ [Generator []] ++ (Port <$> fs)) as Hheap.
  { unfold σ3, σ2. rewrite !with_heap_heap.
    rewrite insert_app_l by (rewrite length_insert; lia).
    rewrite list_insert_insert_eq. unfold σ1. rewrite with_heap_heap.
    rewrite <- (Nat.add_0_r (length (heap σ))) at 1.
    by rewrite insert_app_r, <- app_assoc. }
  exists σ1, σ2, σ3, e.
  split; [done|]. rewrite Hres, Hfin, Hlen, Hnext. cbn [result final].
  repeat split; try done.
  rewrite run_next_exhausted; [done|]. rewrite Hheap. by apply list_lookup_middle.
Qed.

Lemma create_ports_item_that_is_not_a_dict_witness :
  ∃ σ1 σ2 σ3 e,
    _create_ports (body_world (JObj [("ports", JArr [JObj [("id", JStr "a")];
                                                   JObj [("self", JStr "b")];
                                                   JObj [("id", JStr "c")]])]))
      0%nat (JObj []) initial
    = Outcome (Ok 0%nat) σ1 [with_request initial (Request POST Port_base_path (JObj [])); σ1]
    ∧ result (nexts pod_world 1 0%nat σ1) = Ok [1%nat]
    ∧ final (nexts pod_world 1 0%nat σ1) = σ2
    ∧ result (next pod_world 0%nat σ2) = Raise e
    ∧ exc_type e = TypeError
    ∧ final (next pod_world 0%nat σ2) = σ3
    ∧ heap σ3 = [Generator []; Port [("id", JStr "a")]]
    ∧ result (next pod_world 0%nat σ3) = Raise (Exn StopIteration None None).
Proof.
  refine (create_ports_item_that_is_not_a_dict
            (body_world (JObj [("ports", JArr [JObj [("id", JStr "a")];
                                              JObj [("self", JStr "b")];
                                              JObj [("id", JStr "c")]])]))
            0%nat (JObj []) initial _ _ [[("id", JStr "a")]] (JObj [("self", JStr "b")])
            [JObj [("id", JStr "c")]]
            eq_refl eq_refl eq_refl eq_refl _ eq_refl).
  constructor; [reflexivity | constructor].
Defined.

(** X9: whatever the backend answers, [_create_ports] sends one request,
    the [POST] of the payload to the ports path, leaves the registry and
    the warnings alone, and changes the heap in one way at most: when it
    returns, and only then, the generator it returns has been added. *)
Theorem create_ports_sends_one_post
    (w : World) (self : loc) (payload : json) (σ : state) :
  requests (final (_create_ports w self payload σ))
  = requests σ ++ [Request POST Port_base_path payload]
  ∧ _clients (final (_create_ports w self payload σ)) = _clients σ
  ∧ warnings (final (_create_ports w self payload σ)) = warnings σ
  ∧ ((∃ e, result (_create_ports w self payload σ) = Raise e)
       ∧ heap (final (_create_ports w self payload σ)) = heap σ
     ∨ ∃ items,
         result (_create_ports w self payload σ) = Ok (length (heap σ))
         ∧ heap (final (_create_ports w self payload σ)) = heap σ ++ [Generator items]).
Proof.
  unfold _create_ports.
  destruct (http w (Request POST Port_base_path payload)) as [resp|e] eqn:Hresp.
  2: { erewrite run_bind_raise by (rewrite run_send, Hresp; reflexivity).
       cbn. repeat split; try done. left. eauto. }
  erewrite run_bind_ok by (rewrite run_send, Hresp; reflexivity).
  destruct (ok resp); cbn [negb].
  2: { cbn. repeat split; try done. left. eauto. }
  destruct (json_body resp) as [body|e]; cbn [lift].
  2: { rewrite bind_raise. cbn. repeat split; try done. left. eauto. }
  rewrite bind_mret.
  destruct (json_subscript body "ports") as [ports|e]; cbn [lift].
  2: { rewrite bind_raise. cbn. repeat split; try done. left. eauto. }
  rewrite bind_mret.
  destruct (json_iter ports) as [items|e]; cbn [lift].
  2: { rewrite bind_raise. cbn. repeat split; try done. left. eauto. }
  rewrite bind_mret. cbn. repeat split; try done. right. eauto.
Qed.

(** ** Exceptions of the transport *)

(** X10: an exception raised by the HTTP call itself passes through the
    three operations of the patch layer as it is: [_create_ports] makes no
    generator, and the sub-port operations leave the trunk as it was. *)
Theorem transport_exception_passes_through (w : World) (self : loc) (σ : state) :
  (∀ payload e,
     http w (Request POST Port_base_path payload) = Raise e →
     result (_create_ports w self payload σ) = Raise e
     ∧ heap (final (_create_ports w self payload σ)) = heap σ)
  ∧ (∀ add trunk subports t id attrs σ0 e,
       resolved σ trunk = Some (t, id, attrs, σ0) →
       http w (subports_request add id subports) = Raise e →
       result (subports_op add w self trunk subports σ) = Raise e
       ∧ heap (final (subports_op add w self trunk subports σ)) = heap σ0
       ∧ heap (final (subports_op add w self trunk subports σ)) !! t
         = Some (Trunk id attrs)).
Proof.
  split.
  - intros payload e He. unfold _create_ports.
    by erewrite run_bind_raise by (rewrite run_send, He; reflexivity).
  - intros add trunk subports t id attrs σ0 e Hres He.
    destruct (run_get_resource_Trunk _ _ _ _ _ _ Hres) as (Ht & _ & tr & Hrun).
    assert (subports_op add w self trunk subports σ
            = prepend tr (Outcome (Raise e)
                            (with_request σ0 (subports_request add id subports))
                            [with_request σ0 (subports_request add id subports)])) as ->.
    { destruct add; unfold subports_op, _add_trunk_subports, _delete_trunk_subports.
      all: rewrite (run_bind_ok _ _ _ _ _ _ Hrun).
      all: erewrite run_bind_ok by (by eapply run_trunk_id).
      all: rewrite prepend_nil.
      all: erewrite run_bind_raise
             by (rewrite run_send; unfold subports_request in He;
                 cbn [subports_action] in He; rewrite He; reflexivity).
      all: reflexivity. }
    cbn. done.
Qed.

Lemma transport_exception_passes_through_witness :
  result (_add_trunk_subports pod_world 0%nat (TrunkId "t1") (JArr []) initial)
  = Raise (Exn (ExternalError "ConnectionError") None None)
  ∧ heap (final (_add_trunk_subports pod_world 0%nat (TrunkId "t1") (JArr []) initial))
    = [Trunk (Some "t1") ∅].
Proof.
  destruct (proj2 (transport_exception_passes_through pod_world 0%nat initial)
              true (TrunkId "t1") (JArr []) _ _ _ _ _ eq_refl eq_refl) as (H1 & H2 & _).
  split; [exact H1 | exact H2].
Defined.

(** ** The error translator: what it returns and what it lets through *)

Lemma prepend_ok {A} tr (r : A) σ : prepend tr (Outcome (Ok r) σ []) = Outcome (Ok r) σ tr.
Proof. unfold prepend. cbn. by rewrite app_nil_r. Qed.

Lemma prepend_raise {A} tr e σ :
  prepend tr (Outcome (@Raise A e) σ []) = Outcome (Raise e) σ tr.
Proof. unfold prepend. cbn. by rewrite app_nil_r. Qed.

(** The translator on a result with ["NeutronError"] in it never
    returns. *)
Lemma run_envelope_raises r σ :
  ∃ e,
    (error ← lift (json_subscript r "NeutronError");
     ty ← lift (json_subscript error "type");
     if in_strings ty not_found_types then
       message ← lift (json_subscript error "message");
       raise (Exn NotFoundException (Some message) None)
     else
       ty ← lift (json_subscript error "type");
       prefix ← lift (add_str ty (JStr ": "));
       message ← lift (json_subscript error "message");
       text ← lift (add_str prefix message);
       raise (Exn SDKException (Some text) None)) σ
    = Outcome (@Raise json e) σ [].
Proof.
  destruct (json_subscript r "NeutronError") as [error|e]; cbn [lift];
    [rewrite bind_mret | by eexists; rewrite bind_raise].
  destruct (json_subscript error "type") as [ty|e]; cbn [lift];
    [rewrite bind_mret | by eexists; rewrite bind_raise].
  destruct (in_strings ty not_found_types).
  - destruct (json_subscript error "message") as [message|e]; cbn [lift];
      [rewrite bind_mret | by eexists; rewrite bind_raise]. by eexists.
  - cbn [lift]. rewrite bind_mret.
    destruct (add_str ty (JStr ": ")) as [prefix|e]; cbn [lift];
      [rewrite bind_mret | by eexists; rewrite bind_raise].
    destruct (json_subscript error "message") as [message|e]; cbn [lift];
      [rewrite bind_mret | by eexists; rewrite bind_raise].
    destruct (add_str prefix message) as [text|e]; cbn [lift];
      [rewrite bind_mret | by eexists; rewrite bind_raise]. by eexists.
Qed.

(** X11: whatever the translator returns is what the method returned, in
    the state the method left, and has no ["NeutronError"] in it; whatever
    the method raises the translator raises, unchanged. *)
Theorem translator_returns_clean_results_only {A} (method : A → M json) (args : A)
    (σ : state) :
  (∀ r, result (handle_neutron_errors method args σ) = Ok r →
        handle_neutron_errors method args σ = method args σ
        ∧ json_contains "NeutronError" r = Ok false)
  ∧ (∀ e, result (method args σ) = Raise e →
          handle_neutron_errors method args σ = method args σ).
Proof.
  unfold handle_neutron_errors. destruct (method args σ) as [[r'|e'] σ' tr] eqn:Hm.
  2: { split; [|intros e _]; by erewrite run_bind_raise by exact Hm. }
  split; [|done]. intros r. rewrite (run_bind_ok _ _ _ _ _ _ Hm).
  destruct (json_contains "NeutronError" r') as [[]|e] eqn:Hin; cbn [lift].
  - rewrite bind_mret. destruct (run_envelope_raises r' σ') as [e ->]. done.
  - rewrite bind_mret. unfold mret, M_ret. rewrite prepend_ok. cbn. by intros [= <-].
  - by rewrite bind_raise.
Qed.

(** X12: an envelope without ["type"] makes the translator raise the
    [KeyError] of ["type"]; one with a string type and no ["message"] the
    [KeyError] of ["message"], listed type or not; one whose type is not a
    string a [TypeError], from the concatenation, before the message is
    looked at. *)
Theorem envelope_that_is_not_well_formed {A} (method : A → M json) (args : A)
    (σ σ' : state) (tr : list state) (d env : list (string * json)) :
  method args σ = Outcome (Ok (JObj d)) σ' tr →
  dict_get "NeutronError" d = Some (JObj env) →
  (dict_get "type" env = None →
   handle_neutron_errors method args σ = Outcome (Raise (key_error "type")) σ' tr)
  ∧ (∀ ty, dict_get "type" env = Some (JStr ty) → dict_get "message" env = None →
           handle_neutron_errors method args σ
           = Outcome (Raise (key_error "message")) σ' tr)
  ∧ (∀ ty, dict_get "type" env = Some ty → (∀ s, ty ≠ JStr s) →
           handle_neutron_errors method args σ
           = Outcome (Raise (type_error "unsupported operand type(s) for +")) σ' tr).
Proof.
  intros Hm Henv. unfold handle_neutron_errors. rewrite (run_bind_ok _ _ _ _ _ _ Hm).
  cbn [json_contains json_subscript]. rewrite Henv.
  rewrite bool_decide_eq_true_2 by eauto. cbn [lift]. rewrite !bind_mret.
  cbn [json_subscript]. split; [|split].
  - intros ->. cbn [lift]. by rewrite bind_raise, prepend_raise.
  - intros ty Hty Hmsg. rewrite Hty. cbn [lift]. rewrite !bind_mret.
    destruct (in_strings _ _).
    + rewrite Hmsg. cbn [lift]. by rewrite bind_raise, prepend_raise.
    + cbn [lift]. rewrite bind_mret. cbn [add_str lift]. rewrite bind_mret, Hmsg.
      cbn [lift]. by rewrite bind_raise, prepend_raise.
  - intros ty Hget Hty. rewrite Hget. cbn [lift]. rewrite !bind_mret.
    assert (in_strings ty not_found_types = false) as ->.
    { destruct ty; try done. by destruct (Hty s). }
    cbn [lift]. rewrite bind_mret.
    assert (add_str ty (JStr ": ") = Raise (type_error "unsupported operand type(s) for +"))
      as ->.
    { destruct ty; try done. by destruct (Hty s). }
    cbn [lift]. by rewrite bind_raise, prepend_raise.
Qed.

Lemma envelope_that_is_not_well_formed_witness :
  handle_neutron_errors (returns (JObj [("NeutronError", JObj [("type", JNull)])])) ()
    initial
  = Outcome (Raise (type_error "unsupported operand type(s) for +")) initial [].
Proof.
  refine (proj2 (proj2 (envelope_that_is_not_well_formed
                          (returns (JObj [("NeutronError", JObj [("type", JNull)])])) ()
                          initial initial [] _ _ eq_refl eq_refl)) JNull eq_refl _).
  intros s H. discriminate H.
Defined.

(** ** One sub-port operation after another *)

Lemma run_subports_success add w self trunk subports σ t id attrs σ0 resp :
  resolved σ trunk = Some (t, id, attrs, σ0) →
  http w (subports_request add id subports) = Ok resp →
  status_code resp < 400 →
  result (subports_op add w self trunk subports σ) = Ok t
  ∧ final (subports_op add w self trunk subports σ)
    = with_heap (with_request σ0 (subports_request add id subports))
        (<[t := Trunk id (<["sub_ports" := subports]> attrs)]> (heap σ0)).
Proof.
  intros Hres Hresp Hlt.
  destruct (run_get_resource_Trunk _ _ _ _ _ _ Hres) as (Ht & _ & _).
  destruct (run_subports_op add w self trunk subports σ t id attrs σ0 resp Hres Hresp)
    as [tr ->].
  erewrite run_bind_ok
    by (rewrite run_raise_from_response; apply Z.ltb_lt in Hlt; rewrite Hlt; reflexivity).
  rewrite prepend_nil.
  erewrite run_bind_ok by (by eapply run_update_attributes). done.
Qed.

(** X13: the cached [sub_ports] of a trunk is the list of the last
    operation that succeeded on it, whichever the operations were: after
    adding the list [a] and then removing the list [b], by the trunk
    resource, the cache holds [b], with nothing left of [a]; the other
    attributes are as they were, and the two requests were sent in that
    order. *)
Theorem last_subports_operation_sets_the_cache
    (add1 add2 : bool) (w w' : World) (self : loc) (l : loc) (id : option string)
    (attrs : gmap string json) (a b : json) (σ : state) (resp1 resp2 : Response) :
  heap σ !! l = Some (Trunk id attrs) →
  http w (subports_request add1 id a) = Ok resp1 →
  status_code resp1 < 400 →
  http w' (subports_request add2 id b) = Ok resp2 →
  status_code resp2 < 400 →
  ∃ σ1 σ2,
    final (subports_op add1 w self (TrunkObj l) a σ) = σ1
    ∧ final (subports_op add2 w' self (TrunkObj l) b σ1) = σ2
    ∧ result (subports_op add2 w' self (TrunkObj l) b σ1) = Ok l
    ∧ heap σ1 !! l = Some (Trunk id (<["sub_ports" := a]> attrs))
    ∧ heap σ2 !! l = Some (Trunk id (<["sub_ports" := b]> attrs))
    ∧ requests σ2
      = requests σ ++ [subports_request add1 id a; subports_request add2 id b].
Proof.
  intros Hl Hresp1 Hlt1 Hresp2 Hlt2.
  pose proof (lookup_lt_Some _ _ _ Hl) as Hlen.
  assert (resolved σ (TrunkObj l) = Some (l, id, attrs, σ)) as Hres1.
  { cbn. by rewrite Hl. }
  destruct (run_subports_success add1 w self _ a σ _ _ _ _ _ Hres1 Hresp1 Hlt1)
    as [_ Hfin1].
  eexists _, _. split; [exact Hfin1|].
  set (σ1 := with_heap _ _).
  assert (heap σ1 !! l = Some (Trunk id (<["sub_ports" := a]> attrs))) as Hl1.
  { unfold σ1. rewrite with_heap_heap. by apply list_lookup_insert_eq. }
  assert (resolved σ1 (TrunkObj l)
          = Some (l, id, <["sub_ports" := a]> attrs, σ1)) as Hres2.
  { cbn [resolved]. by rewrite Hl1. }
  destruct (run_subports_success add2 w' self _ b σ1 _ _ _ _ _ Hres2 Hresp2 Hlt2)
    as [Hok2 Hfin2].
  split; [exact Hfin2|]. split; [exact Hok2|]. split; [exact Hl1|]. split.
  - rewrite with_heap_heap, insert_insert_eq. apply list_lookup_insert_eq.
    unfold σ1. cbn. by rewrite length_insert.
  - cbn. by rewrite <- app_assoc.
Qed.

Lemma last_subports_operation_sets_the_cache_witness :
  ∃ σ1 σ2,
    final (subports_op true (status_world 200) 0%nat (TrunkObj 0)
             (JArr [JStr "p1"; JStr "p2"])
             (with_heap initial [Trunk (Some "t1") ∅])) = σ1
    ∧ final (subports_op false (status_world 200) 0%nat (TrunkObj 0) (JArr [JStr "p1"]) σ1)
      = σ2
    ∧ result (subports_op false (status_world 200) 0%nat (TrunkObj 0) (JArr [JStr "p1"]) σ1)
      = Ok 0%nat
    ∧ heap σ1 !! 0%nat
      = Some (Trunk (Some "t1") (<["sub_ports" := JArr [JStr "p1"; JStr "p2"]]> ∅))
    ∧ heap σ2 !! 0%nat = Some (Trunk (Some "t1") (<["sub_ports" := JArr [JStr "p1"]]> ∅))
    ∧ requests σ2
      = requests (with_heap initial [Trunk (Some "t1") ∅])
        ++ [subports_request true (Some "t1") (JArr [JStr "p1"; JStr "p2"]);
            subports_request false (Some "t1") (JArr [JStr "p1"])].
Proof.
  exact (last_subports_operation_sets_the_cache true false (status_world 200)
           (status_world 200) 0%nat 0%nat (Some "t1") ∅ (JArr [JStr "p1"; JStr "p2"])
           (JArr [JStr "p1"]) (with_heap initial [Trunk (Some "t1") ∅]) _ _
           eq_refl eq_refl eq_refl eq_refl eq_refl).
Defined.

(** ** Invariants of whole programs *)

(** X14: in every state a program of calls can be observed in, from the
    import of the module on, the registry has no key but the four of the
    module, and each entry it has is the location of an object of the
    class of its key: a kind is either absent or a client that was built,
    never anything in between. *)
Theorem registry_holds_built_clients_only (cs : list (World * call)) :
  Forall registry_is_live (states cs initial).
Proof. apply live_program, registry_is_live_initial. Qed.

(** X15: a network client that carries the patch layer carries it for
    good: whatever is called afterwards, a second [setup_openstacksdk]
    included, the three operations stay on it, bound to it. *)
Theorem patch_layer_stays_on_a_client
    (cs : list (World * call)) (σ : state) (nc : loc) :
  carries_patch_layer σ nc → carries_patch_layer (run cs σ) nc.
Proof.
  intros (attrs & Hnc & Hattrs). exists attrs. split; [|done].
  by destruct (program_sdk_objects cs σ nc _ Hnc eq_refl) as (o' & Ho' & ->).
Qed.

Lemma patch_layer_stays_on_a_client_witness :
  carries_patch_layer
    (run [(pod_world, setup openstacksdk); (pod_world, get neutron)] after_setup_clients)
    2%nat.
Proof.
  apply (patch_layer_stays_on_a_client
           [(pod_world, setup openstacksdk); (pod_world, get neutron)] after_setup_clients).
  apply (carries_patched [NeutronClient; K8sClient "https://[::1]:443"] None
           after_setup_clients).
Defined.

(** ** The proxies a connection builds on demand *)

Lemma run_get_loadbalancer_client w σ :
  get_loadbalancer_client w σ
  = match entry σ _OPENSTACKSDK with
    | Ok c => attr_load_balancer w c σ
    | Raise e => Outcome (Raise e) σ []
    end.
Proof.
  unfold get_loadbalancer_client, get_openstacksdk.
  destruct (entry σ _OPENSTACKSDK) as [c|e] eqn:E.
  - erewrite run_bind_ok by (rewrite run_clients_item, E; reflexivity). apply prepend_nil.
  - erewrite run_bind_raise by (rewrite run_clients_item, E; reflexivity). reflexivity.
Qed.

Lemma run_get_compute_client w σ :
  get_compute_client w σ
  = match entry σ _OPENSTACKSDK with
    | Ok c => attr_compute w c σ
    | Raise e => Outcome (Raise e) σ []
    end.
Proof.
  unfold get_compute_client.
  destruct (entry σ _OPENSTACKSDK) as [c|e] eqn:E.
  - erewrite run_bind_ok by (rewrite run_clients_item, E; reflexivity). apply prepend_nil.
  - erewrite run_bind_raise by (rewrite run_clients_item, E; reflexivity). reflexivity.
Qed.

(** A proxy the registered connection holds is what the accessor
    returns, in any world, after any program that leaves the entry of the
    connection alone. *)
Lemma held_load_balancer σ c r n lb cp cs w :
  entry σ _OPENSTACKSDK = Ok c →
  heap σ !! c = Some (Connection r n (Some lb) cp) →
  Forall (λ wc, _OPENSTACKSDK ∉ writes wc.2) cs →
  get_loadbalancer_client w (run cs σ) = Outcome (Ok lb) (run cs σ) [].
Proof.
  intros Hentry Hc Hcs.
  rewrite run_get_loadbalancer_client, program_entry, Hentry by done.
  destruct (program_sdk_objects cs σ c _ Hc eq_refl)
    as (o' & Ho' & lb' & cp' & -> & Hlb & _).
  by rewrite run_attr_load_balancer, Ho', (Hlb lb eq_refl).
Qed.

Lemma held_compute σ c r n lb cp cs w :
  entry σ _OPENSTACKSDK = Ok c →
  heap σ !! c = Some (Connection r n lb (Some cp)) →
  Forall (λ wc, _OPENSTACKSDK ∉ writes wc.2) cs →
  get_compute_client w (run cs σ) = Outcome (Ok cp) (run cs σ) [].
Proof.
  intros Hentry Hc Hcs.
  rewrite run_get_compute_client, program_entry, Hentry by done.
  destruct (program_sdk_objects cs σ c _ Hc eq_refl)
    as (o' & Ho' & lb' & cp' & -> & _ & Hcp).
  by rewrite run_attr_compute, Ho', (Hcp cp eq_refl).
Qed.

(** X16: the load-balancer and the compute client are built on demand
    and once.  A call of the accessor that raises, because there is no
    connection or because the construction of the proxy fails, has changed
    nothing, so that the next call tries again; once a call has returned
    a proxy, every later call returns that same proxy and changes nothing,
    in any world, one in which the construction would fail included,
    whatever is called in between short of a new [setup_openstacksdk]. *)
Theorem service_proxy_is_built_once (w : World) (σ : state) :
  (∀ e, result (get_loadbalancer_client w σ) = Raise e →
        get_loadbalancer_client w σ = Outcome (Raise e) σ [])
  ∧ (∀ lb, result (get_loadbalancer_client w σ) = Ok lb →
       ∀ cs w', Forall (λ wc, _OPENSTACKSDK ∉ writes wc.2) cs →
         get_loadbalancer_client w' (run cs (final (get_loadbalancer_client w σ)))
         = Outcome (Ok lb) (run cs (final (get_loadbalancer_client w σ))) [])
  ∧ (∀ e, result (get_compute_client w σ) = Raise e →
          get_compute_client w σ = Outcome (Raise e) σ [])
  ∧ (∀ cp, result (get_compute_client w σ) = Ok cp →
       ∀ cs w', Forall (λ wc, _OPENSTACKSDK ∉ writes wc.2) cs →
         get_compute_client w' (run cs (final (get_compute_client w σ)))
         = Outcome (Ok cp) (run cs (final (get_compute_client w σ))) []).
Proof.
  split; [|split; [|split]].
  - intros e. rewrite run_get_loadbalancer_client.
    destruct (entry σ _OPENSTACKSDK) as [c|e']; [|by intros [= ->]].
    rewrite run_attr_load_balancer.
    destruct (heap σ !! c) as [[| | |r n [lb|] cp| | | |]|]; try by intros [= ->].
    destruct (ext_fail w _); [by intros [= ->] | done].
  - intros lb. rewrite run_get_loadbalancer_client.
    destruct (entry σ _OPENSTACKSDK) as [c|e'] eqn:Hentry; [|done].
    rewrite run_attr_load_balancer.
    destruct (heap σ !! c) as [[| | |r n [lb0|] cp| | | |]|] eqn:Hc; try done.
    + cbn [result final]. intros [= ->] cs w' Hcs. by eapply held_load_balancer.
    + destruct (ext_fail w _); [done|]. cbn [result final]. intros [= <-] cs w' Hcs.
      eapply held_load_balancer; [exact Hentry | | exact Hcs].
      rewrite with_heap_heap. apply list_lookup_insert_eq.
      rewrite length_app. apply lookup_lt_Some in Hc. lia.
  - intros e. rewrite run_get_compute_client.
    destruct (entry σ _OPENSTACKSDK) as [c|e']; [|by intros [= ->]].
    rewrite run_attr_compute.
    destruct (heap σ !! c) as [[| | |r n lb [cp|]| | | |]|]; try by intros [= ->].
    destruct (ext_fail w _); [by intros [= ->] | done].
  - intros cp. rewrite run_get_compute_client.
    destruct (entry σ _OPENSTACKSDK) as [c|e'] eqn:Hentry; [|done].
    rewrite run_attr_compute.
    destruct (heap σ !! c) as [[| | |r n lb [cp0|]| | | |]|] eqn:Hc; try done.
    + cbn [result final]. intros [= ->] cs w' Hcs. by eapply held_compute.
    + destruct (ext_fail w _); [done|]. cbn [result final]. intros [= <-] cs w' Hcs.
      eapply held_compute; [exact Hentry | | exact Hcs].
      rewrite with_heap_heap. apply list_lookup_insert_eq.
      rewrite length_app. apply lookup_lt_Some in Hc. lia.
Qed.

Lemma service_proxy_is_built_once_witness :
  get_loadbalancer_client no_discovery_world after_setup_clients
  = Outcome (Raise (Exn (ExternalError "DiscoveryFailure") None None)) after_setup_clients []
  ∧ result (get_loadbalancer_client pod_world after_setup_clients) = Ok 4%nat
  ∧ get_loadbalancer_client no_discovery_world
      (run [(pod_world, get_compute); (no_discovery_world, get_loadbalancer)]
         (final (get_loadbalancer_client pod_world after_setup_clients)))
    = Outcome (Ok 4%nat)
        (run [(pod_world, get_compute); (no_discovery_world, get_loadbalancer)]
           (final (get_loadbalancer_client pod_world after_setup_clients))) [].
Proof.
  destruct (service_proxy_is_built_once no_discovery_world after_setup_clients)
    as (Hfail & _).
  destruct (service_proxy_is_built_once pod_world after_setup_clients) as (_ & Hheld & _).
  split; [apply Hfail; reflexivity|]. split; [reflexivity|].
  apply (Hheld 4%nat eq_refl).
  constructor; [apply not_elem_of_nil|]. constructor; [apply not_elem_of_nil | constructor].
Defined.
